(** * numint: adaptive RK4 step-size controller and trapezoidal stepper

    A shallow embedding of

      - [solver::stepper_adaptive_rk4]  (include/solver/stepper_adaptive_rk4.hpp)
      - [numint::stepper_trapezoidal]   (include/numint/stepper/stepper_trapezoidal.hpp)

    Both classes are templates over the state container and the scalar
    type.  The embedding instantiates the scalar with the real numbers
    (exact arithmetic: no rounding, no overflow, no NaN) and the state
    container with a list of scalars, the model of [std::vector].  What
    a call computes, in which order and from which values is proved on
    that instance.  How large the step size can get is a matter of the
    arithmetic: the controller is embedded a second time, in [binary64],
    over IEEE 754 doubles, and the bounds on the step size are settled
    there.
    Reading a container past its end is undefined behaviour in the source;
    the embedding makes it explicit as the result [None]. *)

From Stdlib Require Import Reals Lra List ZArith Lia.
From Stdlib Require Floats QArith.
Import ListNotations.

Open Scope R_scope.

(** ** Scalars, state vectors and the standard-library helpers *)

Definition Time : Type := R.
Definition value_type : Type := R.
Definition State : Type := list R.

(** [std::max(a, b)] is [(a < b) ? b : a]. *)
Definition std_max (a b : R) : R := if Rlt_dec a b then b else a.

(** [std::min(a, b)] is [(b < a) ? b : a]. *)
Definition std_min (a b : R) : R := if Rlt_dec b a then b else a.

(** [std::abs] on a floating-point argument. *)
Definition std_abs (a : R) : R := Rabs a.

(** Sum of a list of scalars, used to state accumulated time. *)
Definition Rsum (l : list R) : R := fold_right Rplus 0 l.

(** The largest absolute value of a list of scalars (its infinity norm);
    the norm of the empty vector is 0. *)
Definition inf_norm (v : list R) : R := fold_right Rmax 0 (map Rabs v).

(** Component-wise difference [b - a] over the indices of [b]. *)
Definition vec_sub (b a : list R) : list R :=
  map (fun p => fst p - snd p) (combine b a).

(** Sequencing of computations that may hit undefined behaviour. *)
Definition obind {A B : Type} (c : option A) (k : A -> option B) : option B :=
  match c with
  | Some a => k a
  | None => None
  end.

Notation "x <- c ;; k" := (obind c (fun x => k))
  (at level 61, c at next level, right associativity).

(** ** The adaptive step-size controller *)

Module solver.

Section stepper_adaptive_rk4.

(** The system of differential equations is a template parameter, only
    ever handed on to the fixed-step integrator. *)
Variable System : Type.

(** [stepper_rk4] comes from stepper_rk4.hpp, which this development
    takes as given: its internal data, its default constructor, its
    [do_step] and its call operator.  [do_step] overwrites the state
    in place and may update the stepper's own bookkeeping. *)
Variable stepper_rk4 : Type.
Variable stepper_rk4_init : stepper_rk4.
Variable rk4_do_step :
  System -> stepper_rk4 -> State -> Time -> Time -> stepper_rk4 * State.
Variable rk4_call :
  System -> stepper_rk4 -> State -> Time -> Time -> stepper_rk4 * State.

(** [std::pow] from <cmath>. *)
Variable pow : R -> R -> R.

(** The private data members of the class. *)
Record stepper_adaptive_rk4 : Type := mk_stepper_adaptive_rk4 {
  _stepper1 : stepper_rk4;
  _stepper2 : stepper_rk4;
  _state : State;
  _tollerance : Time;
  _time_delta : Time;
  _time : Time
}.

(** Constructor: [stepper_adaptive_rk4(value_type_t tollerance = 0.0001)]. *)
Definition construct (tollerance : value_type) : stepper_adaptive_rk4 :=
  {| _stepper1 := stepper_rk4_init;
     _stepper2 := stepper_rk4_init;
     _state := [];
     _tollerance := tollerance;
     _time_delta := 1e-12;
     _time := 0 |}.

Definition default_tollerance : value_type := 0.0001.

Definition order_step (s : stepper_adaptive_rk4) : Z := 0%Z.

Definition initialize (s : stepper_adaptive_rk4)
    (state : State) (time time_delta : Time) : stepper_adaptive_rk4 :=
  {| _stepper1 := _stepper1 s;
     _stepper2 := _stepper2 s;
     _state := state;
     _tollerance := _tollerance s;
     _time_delta := time_delta;
     _time := time |}.

Definition current_state (s : stepper_adaptive_rk4) : State := _state s.
Definition current_time_step (s : stepper_adaptive_rk4) : Time := _time_delta s.
Definition current_time (s : stepper_adaptive_rk4) : Time := _time s.

(** The four-argument overload forwards to the call operator of
    [_stepper1]; it returns the updated controller and the updated [x]. *)
Definition do_step_on (system : System) (s : stepper_adaptive_rk4)
    (x : State) (t dt : Time) : stepper_adaptive_rk4 * State :=
  let '(st1, x') := rk4_call system (_stepper1 s) x t dt in
  ({| _stepper1 := st1;
      _stepper2 := _stepper2 s;
      _state := _state s;
      _tollerance := _tollerance s;
      _time_delta := _time_delta s;
      _time := _time s |}, x').

(** *** Truncation error: the three loops selected by [flag] *)

Definition flag : nat := 0.

(** [for i < _state.size(): err = |_state[i] - _y0[i]|; t_err = err > t_err ? err : t_err] *)
Fixpoint abs_error_loop (state y0 : State) (t_err : R) : option R :=
  match state with
  | [] => Some t_err
  | si :: state' =>
      match y0 with
      | [] => None
      | yi :: y0' =>
          let err := std_abs (si - yi) in
          abs_error_loop state' y0' (if Rgt_dec err t_err then err else t_err)
      end
  end.

Fixpoint rel_error_loop (state y0 : State) (t_err : R) : option R :=
  match state with
  | [] => Some t_err
  | si :: state' =>
      match y0 with
      | [] => None
      | yi :: y0' =>
          let err := std_abs ((si - yi) / si) in
          rel_error_loop state' y0' (if Rgt_dec err t_err then err else t_err)
      end
  end.

Fixpoint mixed_error_loop (state y0 : State) (t_err : R) : option R :=
  match state with
  | [] => Some t_err
  | si :: state' =>
      match y0 with
      | [] => None
      | yi :: y0' =>
          let err1 := std_abs ((si - yi) / si) in
          let err2 := std_abs (si - yi) in
          let err := if Rlt_dec err1 err2 then err1 else err2 in
          mixed_error_loop state' y0' (if Rgt_dec err t_err then err else t_err)
      end
  end.

(** [double t_err = 0.; if constexpr (flag == 0) ... else if constexpr (flag == 1) ... else ...] *)
Definition truncation_error (state y0 : State) : option R :=
  match flag with
  | O => abs_error_loop state y0 0
  | S O => rel_error_loop state y0 0
  | _ => mixed_error_loop state y0 0
  end.

(** [if (t_err == 0.) t_err = 1.e-15;] *)
Definition floor_error (t_err : R) : R :=
  if Req_dec_T t_err 0 then 1e-15 else t_err.

(** The right-hand side of the assignment to [_time_delta]. *)
Definition next_time_delta (tollerance time_delta t_err : R) : R :=
  0.9 * time_delta *
  std_min (std_max (pow (tollerance / (2 * t_err)) 0.2) 0.3) 1.5.

(** *** [do_step(System &system)] *)
Definition do_step (system : System) (s : stepper_adaptive_rk4)
    : option stepper_adaptive_rk4 :=
  let '(st1, y0) :=
    rk4_do_step system (_stepper1 s) (_state s) (_time s) (_time_delta s) in
  let '(st2, x) :=
    rk4_do_step system (_stepper2 s) (_state s) (_time s) (_time_delta s * 0.5) in
  let '(st2, x) :=
    rk4_do_step system st2 x (_time s + _time_delta s * 0.5) (_time_delta s * 0.5) in
  let time := _time s + _time_delta s in
  t_err <- truncation_error x y0 ;;
  let t_err := floor_error t_err in
  Some {| _stepper1 := st1;
          _stepper2 := st2;
          _state := x;
          _tollerance := _tollerance s;
          _time_delta := next_time_delta (_tollerance s) (_time_delta s) t_err;
          _time := time |}.

(** The caller's loop: [k] successive calls of [do_step], together with
    the step size that was in effect at the start of each call. *)
Fixpoint run (system : System) (k : nat) (s : stepper_adaptive_rk4)
    : option (list Time * stepper_adaptive_rk4) :=
  match k with
  | O => Some ([], s)
  | S k' =>
      s' <- do_step system s ;;
      r <- run system k' s' ;;
      Some (_time_delta s :: fst r, snd r)
  end.

(** *** The quantities the controller's contract speaks about *)

(** Candidate A: one integration over the whole step. *)
Definition candidate_A (system : System) (s : stepper_adaptive_rk4) : State :=
  snd (rk4_do_step system (_stepper1 s) (_state s) (_time s) (_time_delta s)).

(** First half of candidate B: from the current state at the current time. *)
Definition first_half (system : System) (s : stepper_adaptive_rk4)
    : stepper_rk4 * State :=
  rk4_do_step system (_stepper2 s) (_state s) (_time s) (_time_delta s * 0.5).

(** Candidate B: the second half continues from the first one. *)
Definition candidate_B (system : System) (s : stepper_adaptive_rk4) : State :=
  snd (rk4_do_step system (fst (first_half system s)) (snd (first_half system s))
         (_time s + _time_delta s * 0.5) (_time_delta s * 0.5)).

(** The error estimate before flooring, as the maximum norm of [B - A]. *)
Definition error_estimate (system : System) (s : stepper_adaptive_rk4) : R :=
  inf_norm (vec_sub (candidate_B system s) (candidate_A system s)).

(** *** The public interface as a caller drives it *)

Inductive operation : Type :=
| Initialize (state : State) (time time_delta : Time)
| Step (system : System)
| StepOn (system : System) (x : State) (t dt : Time)
| OrderStep
| CurrentState
| CurrentTimeStep
| CurrentTime.

(** The controller after one public operation; the [const] members
    leave it as it is. *)
Definition perform (op : operation) (s : stepper_adaptive_rk4)
    : option stepper_adaptive_rk4 :=
  match op with
  | Initialize state time time_delta => Some (initialize s state time time_delta)
  | Step system => do_step system s
  | StepOn system x t dt => Some (fst (do_step_on system s x t dt))
  | OrderStep | CurrentState | CurrentTimeStep | CurrentTime => Some s
  end.

Fixpoint perform_all (ops : list operation) (s : stepper_adaptive_rk4)
    : option stepper_adaptive_rk4 :=
  match ops with
  | [] => Some s
  | op :: ops' => s' <- perform op s ;; perform_all ops' s'
  end.

End stepper_adaptive_rk4.

Arguments _stepper1 {stepper_rk4} _.
Arguments _stepper2 {stepper_rk4} _.
Arguments _state {stepper_rk4} _.
Arguments _tollerance {stepper_rk4} _.
Arguments _time_delta {stepper_rk4} _.
Arguments _time {stepper_rk4} _.
Arguments current_state {stepper_rk4} _.
Arguments current_time_step {stepper_rk4} _.
Arguments current_time {stepper_rk4} _.
Arguments initialize {stepper_rk4} _ _ _ _.
Arguments construct {stepper_rk4} _ _.
Arguments do_step {System stepper_rk4} _ _ _ _.
Arguments do_step_on {System stepper_rk4} _ _ _ _ _ _.
Arguments run {System stepper_rk4} _ _ _ _ _.
Arguments candidate_A {System stepper_rk4} _ _ _.
Arguments first_half {System stepper_rk4} _ _ _.
Arguments candidate_B {System stepper_rk4} _ _ _.
Arguments error_estimate {System stepper_rk4} _ _ _.
Arguments perform {System stepper_rk4} _ _ _ _ _.
Arguments perform_all {System stepper_rk4} _ _ _ _ _.

End solver.

(** ** The trapezoidal stepper *)

Module numint.

Section stepper_trapezoidal.

(** The system is called as [system(x, dxdt, t)]: it reads the state
    [x] and the time [t] and writes the derivative into the buffer
    [dxdt].  Its model returns the buffer after the call, given the
    buffer before the call. *)
Variable system : State -> State -> Time -> State.

(** [numint::detail::has_resize<state_type>::value], from type_traits.hpp. *)
Variable has_resize : bool.

(** [unsigned long] on the LP64 targets the library is built for. *)
Definition ULONG_MAX : Z := (2 ^ 64 - 1)%Z.

Record stepper_trapezoidal : Type := mk_stepper_trapezoidal {
  m_dxdt_start : State;
  m_dxdt_end : State;
  m_steps : Z
}.

(** [stepper_trapezoidal() = default], with [m_steps{}], for a resizable
    container ([std::vector]): the two buffers are default-constructed,
    that is empty. *)
Definition construct : stepper_trapezoidal :=
  {| m_dxdt_start := []; m_dxdt_end := []; m_steps := 0%Z |}.


Definition is_adaptive_stepper : bool := false.

Definition order_step (st : stepper_trapezoidal) : Z := 1%Z.

Definition steps (st : stepper_trapezoidal) : Z := m_steps st.

(** [std::vector::resize(n)]: keep the first [n] elements, pad with zeros. *)
Definition resize (n : nat) (v : State) : State :=
  firstn n v ++ repeat 0 (n - length v).

Definition adjust_size (st : stepper_trapezoidal) (reference : State)
    : stepper_trapezoidal :=
  if has_resize then
    {| m_dxdt_start := resize (length reference) (m_dxdt_start st);
       m_dxdt_end := resize (length reference) (m_dxdt_end st);
       m_steps := m_steps st |}
  else st.

(** Modelled from the spec: [detail::it_algebra::accumulate_operation]
    (numint/detail/it_algebra.hpp is not part of the sources at hand).
    The stepper documents the call as
    [x(t + dt) = x(t) + (0.5 * dt * dxdt_start) + (0.5 * dt * dxdt_end)]:
    for every position of the output range, [y += op(a1, x1) + op(a2, x2)],
    the two input iterators advancing with the output one.  An input
    range shorter than the output range is read past its end: undefined
    behaviour in C++, which this embedding marks by [None] (a convention
    of the embedding; the call sites are proved under the condition
    that excludes it). *)
Fixpoint accumulate_operation (op : R -> R -> R) (y : State)
    (a1 : R) (x1 : State) (a2 : R) (x2 : State) : option State :=
  match y with
  | [] => Some []
  | yi :: y' =>
      match x1, x2 with
      | v1 :: x1', v2 :: x2' =>
          r <- accumulate_operation op y' a1 x1' a2 x2' ;;
          Some (yi + (op a1 v1 + op a2 v2) :: r)
      | _, _ => None
      end
  end.

(** [++m_steps] on an [unsigned long]. *)
Definition incr_ulong (n : Z) : Z := ((n + 1) mod (ULONG_MAX + 1))%Z.

(** [do_step(System &&system, state_type &x, const time_type t, const time_type dt)];
    the result is the stepper after the call and the overwritten [x]. *)
Definition do_step (st : stepper_trapezoidal) (x : State) (t dt : Time)
    : option (stepper_trapezoidal * State) :=
  let dxdt_start := system x (m_dxdt_start st) t in
  let dxdt_end := system x (m_dxdt_end st) (t + dt) in
  x' <- accumulate_operation Rmult x (0.5 * dt) dxdt_start (0.5 * dt) dxdt_end ;;
  Some ({| m_dxdt_start := dxdt_start;
           m_dxdt_end := dxdt_end;
           m_steps := incr_ulong (m_steps st) |}, x').

(** The trapezoidal estimate of the state at [t + dt] from the state
    and two derivative samples, component by component. *)
Fixpoint trapezoidal_estimate (x dxdt_start dxdt_end : State) (dt : Time)
    : State :=
  match x, dxdt_start, dxdt_end with
  | xi :: x', a :: s', b :: e' =>
      xi + 0.5 * dt * a + 0.5 * dt * b :: trapezoidal_estimate x' s' e' dt
  | _, _, _ => []
  end.

(** What a caller can observe of a stepper through its public members. *)
Definition observable (st : stepper_trapezoidal) : Z * Z * bool :=
  (steps st, order_step st, is_adaptive_stepper).

(** A caller's loop: successive calls of [do_step] on the same state
    vector, each with its own time and step duration. *)
Fixpoint do_steps (st : stepper_trapezoidal) (x : State)
    (calls : list (Time * Time)) : option (stepper_trapezoidal * State) :=
  match calls with
  | [] => Some (st, x)
  | (t, dt) :: calls' =>
      r <- do_step st x t dt ;;
      do_steps (fst r) (snd r) calls'
  end.

End stepper_trapezoidal.

End numint.

(** ** The observers (observer.hpp, namespace [numint::detail]) *)

Module detail.

(** [std::size_t] on the LP64 targets the library is built for. *)
Definition SIZE_MAX : Z := (2 ^ 64 - 1)%Z.

(** [std::cout], as the sequence of records written to it: the statement
    [std::cout << t << " " << x << "\n"] writes one record made of the
    time and the state. *)
Definition ostream : Type := list (Time * State).

(** [Observer::operator()]: the base observer ignores its arguments. *)
Definition Observer_call (x : State) (t : Time) (out : ostream) : ostream :=
  out.

Section ObserverDecimate.

(** The template parameter [std::size_t DECIMATION]. *)
Variable DECIMATION : Z.

Record ObserverDecimate : Type := mk_ObserverDecimate {
  decimation_cnt : Z
}.

(** [explicit ObserverDecimate()], with [decimation_cnt{}]. *)
Definition construct : ObserverDecimate := {| decimation_cnt := 0%Z |}.

(** [observe()]: the answer and the observer after the call. *)
Definition observe (o : ObserverDecimate) : bool * ObserverDecimate :=
  if (DECIMATION =? 0)%Z then (true, o)
  else
    let cnt := ((decimation_cnt o + 1) mod (SIZE_MAX + 1))%Z in
    if (cnt =? DECIMATION)%Z then (true, {| decimation_cnt := 0%Z |})
    else (false, {| decimation_cnt := cnt |}).

(** [ObserverPrint::operator()(x, t)]: the observer and the stream after
    the call. *)
Definition ObserverPrint_call (o : ObserverDecimate) (out : ostream)
    (x : State) (t : Time) : ObserverDecimate * ostream :=
  let '(b, o') := observe o in
  if b then (o', out ++ [(t, x)]) else (o', out).

(** [k] successive calls of [observe], with their answers in order. *)
Fixpoint observe_many (k : nat) (o : ObserverDecimate)
    : list bool * ObserverDecimate :=
  match k with
  | O => ([], o)
  | S k' =>
      let '(b, o') := observe o in
      let '(bs, o'') := observe_many k' o' in
      (b :: bs, o'')
  end.

(** The printing observer called on a sequence of samples, in order. *)
Fixpoint ObserverPrint_feed (o : ObserverDecimate) (out : ostream)
    (samples : list (Time * State)) : ObserverDecimate * ostream :=
  match samples with
  | [] => (o, out)
  | (t, x) :: samples' =>
      let '(o', out') := ObserverPrint_call o out x t in
      ObserverPrint_feed o' out' samples'
  end.

End ObserverDecimate.

End detail.

(** ** The adaptive controller on binary64 scalars

    The same class with the scalar type instantiated by IEEE 754
    binary64 (the [double] of the source): every operation rounds, a
    product can underflow to zero or overflow to infinity, and a
    comparison with a NaN is false. *)

Module binary64.

Import Floats.
Local Open Scope float_scope.
#[local] Set Warnings "-inexact-float".

Definition Time : Type := float.
Definition State : Type := list float.

(** [std::max(a, b)] is [(a < b) ? b : a]. *)
Definition std_max (a b : float) : float := if a <? b then b else a.

(** [std::min(a, b)] is [(b < a) ? b : a]. *)
Definition std_min (a b : float) : float := if b <? a then b else a.

(** The exact rational value of a finite binary64 number. *)
Definition exact (x : float) : option QArith_base.Q :=
  match Prim2SF x with
  | S754_zero _ => Some (QArith_base.Qmake 0 1)
  | S754_finite s m e =>
      Some (QArith_base.Qmult
              (QArith_base.Qmake (if s then Zneg m else Zpos m) 1)
              (QArith_base.Qpower (QArith_base.Qmake 2 1) e))
  | _ => None
  end.

Section stepper_adaptive_rk4.

Variable System : Type.
Variable stepper_rk4 : Type.
Variable stepper_rk4_init : stepper_rk4.
Variable rk4_do_step :
  System -> stepper_rk4 -> State -> Time -> Time -> stepper_rk4 * State.

(** [std::pow] from <cmath>, on doubles. *)
Variable pow : float -> float -> float.

Record stepper_adaptive_rk4 : Type := mk_stepper_adaptive_rk4 {
  _stepper1 : stepper_rk4;
  _stepper2 : stepper_rk4;
  _state : State;
  _tollerance : Time;
  _time_delta : Time;
  _time : Time
}.

Definition construct (tollerance : float) : stepper_adaptive_rk4 :=
  {| _stepper1 := stepper_rk4_init;
     _stepper2 := stepper_rk4_init;
     _state := [];
     _tollerance := tollerance;
     _time_delta := 1e-12;
     _time := 0 |}.

Definition initialize (s : stepper_adaptive_rk4)
    (state : State) (time time_delta : Time) : stepper_adaptive_rk4 :=
  {| _stepper1 := _stepper1 s;
     _stepper2 := _stepper2 s;
     _state := state;
     _tollerance := _tollerance s;
     _time_delta := time_delta;
     _time := time |}.

Definition current_state (s : stepper_adaptive_rk4) : State := _state s.
Definition current_time_step (s : stepper_adaptive_rk4) : Time := _time_delta s.
Definition current_time (s : stepper_adaptive_rk4) : Time := _time s.

Definition flag : nat := 0.

(** [err = std::abs(_state[i] - _y0[i]); t_err = (err > t_err) ? err : t_err] *)
Fixpoint abs_error_loop (state y0 : State) (t_err : float) : option float :=
  match state with
  | [] => Some t_err
  | si :: state' =>
      match y0 with
      | [] => None
      | yi :: y0' =>
          let err := abs (si - yi) in
          abs_error_loop state' y0' (if t_err <? err then err else t_err)
      end
  end.

Fixpoint rel_error_loop (state y0 : State) (t_err : float) : option float :=
  match state with
  | [] => Some t_err
  | si :: state' =>
      match y0 with
      | [] => None
      | yi :: y0' =>
          let err := abs ((si - yi) / si) in
          rel_error_loop state' y0' (if t_err <? err then err else t_err)
      end
  end.

Fixpoint mixed_error_loop (state y0 : State) (t_err : float) : option float :=
  match state with
  | [] => Some t_err
  | si :: state' =>
      match y0 with
      | [] => None
      | yi :: y0' =>
          let err1 := abs ((si - yi) / si) in
          let err2 := abs (si - yi) in
          let err := if err1 <? err2 then err1 else err2 in
          mixed_error_loop state' y0' (if t_err <? err then err else t_err)
      end
  end.

Definition truncation_error (state y0 : State) : option float :=
  match flag with
  | O => abs_error_loop state y0 0
  | S O => rel_error_loop state y0 0
  | _ => mixed_error_loop state y0 0
  end.

(** [if (t_err == 0.) t_err = 1.e-15;] *)
Definition floor_error (t_err : float) : float :=
  if t_err =? 0 then 1e-15 else t_err.

(** The clamped power of the step-size formula. *)
Definition clamp_factor (tollerance t_err : float) : float :=
  std_min (std_max (pow (tollerance / (2 * t_err)) 0.2) 0.3) 1.5.

(** [0.9 * _time_delta * std::min(std::max(std::pow(...), 0.3), 1.5)] *)
Definition next_time_delta (tollerance time_delta t_err : float) : float :=
  0.9 * time_delta * clamp_factor tollerance t_err.

Definition do_step (system : System) (s : stepper_adaptive_rk4)
    : option stepper_adaptive_rk4 :=
  let '(st1, y0) :=
    rk4_do_step system (_stepper1 s) (_state s) (_time s) (_time_delta s) in
  let '(st2, x) :=
    rk4_do_step system (_stepper2 s) (_state s) (_time s) (_time_delta s * 0.5) in
  let '(st2, x) :=
    rk4_do_step system st2 x (_time s + _time_delta s * 0.5) (_time_delta s * 0.5) in
  let time := _time s + _time_delta s in
  t_err <- truncation_error x y0 ;;
  let t_err := floor_error t_err in
  Some {| _stepper1 := st1;
          _stepper2 := st2;
          _state := x;
          _tollerance := _tollerance s;
          _time_delta := next_time_delta (_tollerance s) (_time_delta s) t_err;
          _time := time |}.

(** [k] successive calls of [do_step]. *)
Fixpoint run (system : System) (k : nat) (s : stepper_adaptive_rk4)
    : option stepper_adaptive_rk4 :=
  match k with
  | O => Some s
  | S k' => s' <- do_step system s ;; run system k' s'
  end.

(** The floored error estimate of a call, when the loop is defined. *)
Definition floored_error (system : System) (s : stepper_adaptive_rk4)
    : option float :=
  let y0 :=
    snd (rk4_do_step system (_stepper1 s) (_state s) (_time s) (_time_delta s)) in
  let h :=
    rk4_do_step system (_stepper2 s) (_state s) (_time s) (_time_delta s * 0.5) in
  let x :=
    snd (rk4_do_step system (fst h) (snd h) (_time s + _time_delta s * 0.5)
           (_time_delta s * 0.5)) in
  t_err <- truncation_error x y0 ;; Some (floor_error t_err).

End stepper_adaptive_rk4.

Arguments _stepper1 {stepper_rk4} _.
Arguments _stepper2 {stepper_rk4} _.
Arguments _state {stepper_rk4} _.
Arguments _tollerance {stepper_rk4} _.
Arguments _time_delta {stepper_rk4} _.
Arguments _time {stepper_rk4} _.
Arguments current_state {stepper_rk4} _.
Arguments current_time_step {stepper_rk4} _.
Arguments current_time {stepper_rk4} _.
Arguments initialize {stepper_rk4} _ _ _ _.
Arguments construct {stepper_rk4} _ _.
Arguments do_step {System stepper_rk4} _ _ _ _.
Arguments run {System stepper_rk4} _ _ _ _ _.
Arguments floored_error {System stepper_rk4} _ _ _.

(** *** Concrete runs

    The trivial system [dx/dt = 0]: every Runge-Kutta stage adds
    [dt * 0] to the state, so the integrator returns the state it was
    given. *)
Definition rest_step (system : unit) (st : unit) (x : State) (t dt : Time)
    : unit * State :=
  (st, x).

(** libm's [std::pow] is not part of the sources.  For concrete runs
    [x ^ 0.2] is computed as the product of the iterated square roots
    of [x] that the binary expansion [0.0011 0011 ...] of 0.2 selects
    (52 bits); it is 0 at 0, infinite at infinity, NaN on negative
    arguments, and agrees with the real power to about fifteen
    significant digits elsewhere.  The runs below use it only where the
    clamp saturates, so that its last digits do not matter. *)
Fixpoint pow_by_roots (bits : list bool) (r : float) : float :=
  match bits with
  | [] => 1
  | b :: bits' =>
      let r' := sqrt r in
      if b then r' * pow_by_roots bits' r' else pow_by_roots bits' r'
  end.

Definition bits_of_fifth : list bool :=
  concat (repeat [false; false; true; true] 13).

Definition pow_by_square_roots (x y : float) : float :=
  pow_by_roots bits_of_fifth x.

(** The same, made total: where the product of roots is a NaN (negative
    or NaN argument) the value 1 is returned instead of it. *)
Definition pow_never_nan (x y : float) : float :=
  let r := pow_by_square_roots x y in
  if r =? r then r else 1.

Definition session (tol : float) (x : State) (t dt : Time)
    : stepper_adaptive_rk4 unit :=
  initialize (construct tt tol) x t dt.

(** *** Predicates on doubles *)

(** In the specification of binary64: the sign bit is clear and the
    value is not a NaN. *)
Definition sign_clear (f : spec_float) : Prop :=
  match f with
  | S754_zero false | S754_infinity false | S754_finite false _ _ => True
  | _ => False
  end.

(** A double that is zero, positive or plus infinity. *)
Definition nonneg (x : float) : Prop := sign_clear (Prim2SF x).

(** A double that is positive and finite. *)
Definition finite_positive (x : float) : Prop :=
  exists m e, Prim2SF x = S754_finite false m e.

End binary64.

(** ** A concrete integrator for the controller

    On the linear system [dx/dt = - lambda * x] the classical fourth-order
    Runge-Kutta formula collapses to one multiplication of every component
    by [1 - h + h^2/2 - h^3/6 + h^4/24], with [h = lambda * dt].  The
    system is given by its rate [lambda]; the stepper counts its steps. *)

Module Decay.

Definition rk4_factor (h : R) : R :=
  1 - h + h * h / 2 - h * h * h / 6 + h * h * h * h / 24.

Definition do_step (lambda : R) (steps : nat) (x : State) (t dt : Time)
    : nat * State :=
  (S steps, map (fun xi => xi * rk4_factor (lambda * dt)) x).

(** A controller for this integrator, with [std::pow] read as the real
    power function. *)
Definition session (tol : R) (x : State) (t dt : Time)
    : solver.stepper_adaptive_rk4 nat :=
  solver.initialize (solver.construct O tol) x t dt.

Definition step (lambda : R) (s : solver.stepper_adaptive_rk4 nat)
    : option (solver.stepper_adaptive_rk4 nat) :=
  solver.do_step do_step Rpower lambda s.

(** The trapezoidal stepper on the same system, one rate for all
    components: the derivative of [x] is [- lambda * x] at every time. *)
Definition system (lambda : R) (x dxdt : State) (t : Time) : State :=
  map (fun xi => - lambda * xi) x.

(** The same system written the way a caller fills a buffer in place:
    [dxdt[i] = - lambda * x[i]] for the components of [x], the rest of
    the buffer left as it is. *)
Fixpoint system_in_place (lambda : R) (x dxdt : State) (t : Time) : State :=
  match x, dxdt with
  | xi :: x', _ :: dxdt' => - lambda * xi :: system_in_place lambda x' dxdt' t
  | _, _ => dxdt
  end.

(** An integrator that breaks the contract: it lengthens the vector. *)
Definition growing_step (system : unit) (st : unit) (x : State) (t dt : Time)
    : unit * State :=
  (st, 0 :: x).

End Decay.

(** * Properties *)

(** ** Standard-library helpers *)

Lemma std_max_Rmax (a b : R) : std_max a b = Rmax a b.
Proof.
  unfold std_max, Rmax.
  destruct (Rlt_dec a b), (Rle_dec a b); lra.
Qed.

Lemma std_min_Rmin (a b : R) : std_min a b = Rmin a b.
Proof.
  unfold std_min, Rmin.
  destruct (Rlt_dec b a), (Rle_dec a b); lra.
Qed.

Lemma clamp_bounds (p : R) : 0.3 <= std_min (std_max p 0.3) 1.5 <= 1.5.
Proof.
  unfold std_min, std_max.
  destruct (Rlt_dec p 0.3); destruct (Rlt_dec 1.5 _); lra.
Qed.

Lemma inf_norm_nonneg (v : list R) : 0 <= inf_norm v.
Proof.
  unfold inf_norm.
  induction v as [|a v IH]; simpl; [lra|].
  apply Rle_trans with (1 := IH), Rmax_r.
Qed.

Lemma inf_norm_upper (v : list R) (i : nat) :
  (i < length v)%nat -> Rabs (nth i v 0) <= inf_norm v.
Proof.
  unfold inf_norm.
  revert i; induction v as [|a v IH]; simpl; intros i Hi; [lia|].
  destruct i as [|i].
  - apply Rmax_l.
  - apply Rle_trans with (2 := Rmax_r _ _), IH. lia.
Qed.

Lemma inf_norm_attained (v : list R) :
  v <> [] -> exists i, (i < length v)%nat /\ inf_norm v = Rabs (nth i v 0).
Proof.
  induction v as [|a v IH]; [congruence|intros _].
  destruct v as [|b v].
  - exists O. split; [simpl; lia|].
    unfold inf_norm; simpl. apply Rmax_left, Rabs_pos.
  - destruct IH as (i & Hi & E); [discriminate|].
    change (inf_norm (a :: b :: v)) with (Rmax (Rabs a) (inf_norm (b :: v))).
    destruct (Rle_dec (Rabs a) (inf_norm (b :: v))) as [L|L].
    + exists (S i). split; [simpl in *; lia|].
      rewrite Rmax_right by exact L. exact E.
    + exists O. split; [simpl; lia|].
      cbn [nth]. apply Rmax_left. lra.
Qed.

Lemma vec_sub_length (b a : list R) :
  (length b <= length a)%nat -> length (vec_sub b a) = length b.
Proof.
  intros H. unfold vec_sub.
  rewrite length_map, length_combine. lia.
Qed.

Lemma vec_sub_nth (b a : list R) (i : nat) :
  (i < length b)%nat -> (length b <= length a)%nat ->
  nth i (vec_sub b a) 0 = nth i b 0 - nth i a 0.
Proof.
  revert a i; induction b as [|x b IH]; simpl; intros a i Hi Hl; [lia|].
  destruct a as [|y a]; simpl in Hl; [lia|].
  destruct i as [|i]; simpl; [reflexivity|].
  apply IH; lia.
Qed.

Lemma vec_sub_diag (a : list R) : inf_norm (vec_sub a a) = 0.
Proof.
  unfold inf_norm, vec_sub.
  induction a as [|x a IH]; simpl; [reflexivity|].
  rewrite IH. replace (x - x) with 0 by lra.
  rewrite Rabs_R0. apply Rmax_left; lra.
Qed.

(** ** The adaptive step-size controller *)

Section adaptive_theory.

Variable System : Type.
Variable stepper_rk4 : Type.
Variable rk4_do_step :
  System -> stepper_rk4 -> State -> Time -> Time -> stepper_rk4 * State.
Variable rk4_call :
  System -> stepper_rk4 -> State -> Time -> Time -> stepper_rk4 * State.
Variable pow : R -> R -> R.

(** The fixed-step integrator overwrites the state in place: the
    vector keeps its length. *)
Hypothesis rk4_size : forall system st x t dt,
  length (snd (rk4_do_step system st x t dt)) = length x.

Local Abbreviation session := (solver.stepper_adaptive_rk4 stepper_rk4).
Local Abbreviation do_step := (solver.do_step rk4_do_step pow).
Local Abbreviation run := (solver.run rk4_do_step pow).
Local Abbreviation candidate_A := (solver.candidate_A rk4_do_step).
Local Abbreviation candidate_B := (solver.candidate_B rk4_do_step).
Local Abbreviation first_half := (solver.first_half rk4_do_step).
Local Abbreviation error_estimate := (solver.error_estimate rk4_do_step).
Local Abbreviation next_time_delta := (solver.next_time_delta pow).
Local Abbreviation floor_error := solver.floor_error.
Local Abbreviation truncation_error := solver.truncation_error.
Local Abbreviation _state := solver._state.
Local Abbreviation _time := solver._time.
Local Abbreviation _time_delta := solver._time_delta.
Local Abbreviation _tollerance := solver._tollerance.
Local Abbreviation _stepper1 := solver._stepper1.
Local Abbreviation _stepper2 := solver._stepper2.

Lemma abs_error_loop_spec (state y0 : State) (acc : R) :
  0 <= acc -> (length state <= length y0)%nat ->
  solver.abs_error_loop state y0 acc
  = Some (Rmax acc (inf_norm (vec_sub state y0))).
Proof.
  revert y0 acc; induction state as [|si state IH]; intros y0 acc Hacc Hlen.
  - simpl. rewrite Rmax_left by (unfold inf_norm; simpl; lra). reflexivity.
  - destruct y0 as [|yi y0]; simpl in Hlen; [lia|].
    cbn [solver.abs_error_loop]. unfold std_abs.
    rewrite IH.
    + f_equal.
      change (inf_norm (vec_sub (si :: state) (yi :: y0)))
        with (Rmax (Rabs (si - yi)) (inf_norm (vec_sub state y0))).
      rewrite Rmax_assoc. f_equal.
      destruct (Rgt_dec (Rabs (si - yi)) acc).
      * rewrite Rmax_right; lra.
      * rewrite Rmax_left; lra.
    + destruct (Rgt_dec (Rabs (si - yi)) acc); [apply Rabs_pos | exact Hacc].
    + lia.
Qed.

Lemma truncation_error_spec (state y0 : State) :
  (length state <= length y0)%nat ->
  truncation_error state y0 = Some (inf_norm (vec_sub state y0)).
Proof.
  intros H. unfold solver.truncation_error, solver.flag.
  rewrite abs_error_loop_spec by (lra || exact H).
  rewrite Rmax_right by apply inf_norm_nonneg. reflexivity.
Qed.

Lemma candidate_A_length (system : System) (s : session) :
  length (candidate_A system s) = length (_state s).
Proof. unfold solver.candidate_A. apply rk4_size. Qed.

Lemma candidate_B_length (system : System) (s : session) :
  length (candidate_B system s) = length (_state s).
Proof.
  unfold solver.candidate_B, solver.first_half.
  rewrite rk4_size. apply rk4_size.
Qed.

Lemma floor_error_pos (e : R) : 0 <= e -> 0 < floor_error e.
Proof.
  intros H. unfold solver.floor_error.
  destruct (Req_dec_T e 0); lra.
Qed.

(** One call of [do_step], written out on the two candidates. *)
Lemma do_step_eq (system : System) (s : session) :
  do_step system s
  = Some {| solver._stepper1 :=
              fst (rk4_do_step system (_stepper1 s) (_state s) (_time s)
                     (_time_delta s));
            solver._stepper2 :=
              fst (rk4_do_step system (fst (first_half system s))
                     (snd (first_half system s))
                     (_time s + _time_delta s * 0.5) (_time_delta s * 0.5));
            solver._state := candidate_B system s;
            solver._tollerance := _tollerance s;
            solver._time_delta :=
              next_time_delta (_tollerance s) (_time_delta s)
                (floor_error (error_estimate system s));
            solver._time := _time s + _time_delta s |}.
Proof.
  pose proof (candidate_A_length system s) as HA.
  pose proof (candidate_B_length system s) as HB.
  unfold solver.do_step, solver.error_estimate.
  unfold solver.candidate_A, solver.candidate_B, solver.first_half in *.
  destruct (rk4_do_step system (_stepper1 s) (_state s) (_time s)
              (_time_delta s)) as [st1 y0].
  destruct (rk4_do_step system (_stepper2 s) (_state s) (_time s)
              (_time_delta s * 0.5)) as [st2 x1].
  cbn [fst snd] in *.
  destruct (rk4_do_step system st2 x1 (_time s + _time_delta s * 0.5)
              (_time_delta s * 0.5)) as [st2' x].
  cbn [fst snd] in *.
  rewrite truncation_error_spec by lia.
  reflexivity.
Qed.

Lemma next_time_delta_factor (tol dt e : R) :
  exists c, 0.3 <= c <= 1.5 /\ next_time_delta tol dt e = 0.9 * dt * c.
Proof.
  unfold solver.next_time_delta.
  eexists; split; [apply clamp_bounds | reflexivity].
Qed.

Lemma next_time_delta_pos (tol dt e : R) :
  0 < dt -> 0 < next_time_delta tol dt e.
Proof.
  intros H. destruct (next_time_delta_factor tol dt e) as (c & Hc & ->).
  nra.
Qed.

Local Abbreviation perform_all := (solver.perform_all rk4_do_step rk4_call pow).
Local Abbreviation perform := (solver.perform rk4_do_step rk4_call pow).
Local Abbreviation current_time_step := solver.current_time_step.
Local Abbreviation current_time := solver.current_time.
Local Abbreviation current_state := solver.current_state.

Lemma do_step_total (system : System) (s : session) :
  exists s', do_step system s = Some s'.
Proof. rewrite do_step_eq. eexists; reflexivity. Qed.

Lemma do_step_time_delta (system : System) (s s' : session) :
  do_step system s = Some s' ->
  _time_delta s'
  = next_time_delta (_tollerance s) (_time_delta s)
      (floor_error (error_estimate system s)).
Proof. rewrite do_step_eq. intros [= <-]. reflexivity. Qed.

Lemma do_step_time (system : System) (s s' : session) :
  do_step system s = Some s' -> _time s' = _time s + _time_delta s.
Proof. rewrite do_step_eq. intros [= <-]. reflexivity. Qed.

Lemma do_step_tollerance (system : System) (s s' : session) :
  do_step system s = Some s' -> _tollerance s' = _tollerance s.
Proof. rewrite do_step_eq. intros [= <-]. reflexivity. Qed.

Lemma error_estimate_nonneg (system : System) (s : session) :
  0 <= error_estimate system s.
Proof. apply inf_norm_nonneg. Qed.

(** [k] calls never fail, keep a positive step size positive and
    advance the time by the step sizes they used. *)
Lemma run_spec (system : System) (k : nat) :
  forall s : session,
  exists dts s', run system k s = Some (dts, s') /\
    length dts = k /\
    _time s' = _time s + Rsum dts /\
    _tollerance s' = _tollerance s /\
    (0 < _time_delta s -> 0 < _time_delta s' /\ Forall (fun d => 0 < d) dts).
Proof.
  induction k as [|k IH]; intros s.
  - exists [], s. cbn. repeat split; auto; lra.
  - destruct (do_step_total system s) as [s1 H1].
    destruct (IH s1) as (dts & s' & Hrun & Hlen & Ht & Htol & Hpos).
    exists (_time_delta s :: dts), s'.
    cbn [solver.run]. rewrite H1. cbn [obind]. rewrite Hrun. cbn [obind fst snd].
    split; [reflexivity|].
    split; [simpl; congruence|].
    split.
    { rewrite Ht, (do_step_time _ _ _ H1). cbn [Rsum fold_right].
      fold (Rsum dts). lra. }
    split.
    { rewrite Htol. exact (do_step_tollerance _ _ _ H1). }
    intros Hdt.
    destruct Hpos as [Hp Hall].
    { rewrite (do_step_time_delta _ _ _ H1). apply next_time_delta_pos, Hdt. }
    split; [exact Hp | constructor; assumption].
Qed.

(** The recorded step sizes are the ones in effect when each call starts. *)
Lemma run_step_sizes (system : System) (k : nat) :
  forall (s s' : session) (dts : list Time) (i : nat),
  run system k s = Some (dts, s') -> (i < k)%nat ->
  exists di si, run system i s = Some (di, si) /\
                nth i dts 0 = _time_delta si.
Proof.
  induction k as [|k IH]; intros s s' dts i Hrun Hi; [lia|].
  cbn [solver.run] in Hrun.
  destruct (do_step system s) as [s1|] eqn:H1; cbn [obind] in Hrun; [|discriminate].
  destruct (run system k s1) as [[d1 s2]|] eqn:H2; cbn [obind fst snd] in Hrun;
    [|discriminate].
  injection Hrun as <- <-.
  destruct i as [|i].
  - exists [], s. split; reflexivity.
  - destruct (IH s1 s2 d1 i H2) as (di & si & Hri & Hn); [lia|].
    exists (_time_delta s :: di), si.
    cbn [solver.run]. rewrite H1. cbn [obind]. rewrite Hri. cbn [obind fst snd].
    split; [reflexivity | exact Hn].
Qed.

Lemma perform_tollerance (op : solver.operation System) (s : session) :
  exists s', perform op s = Some s' /\ _tollerance s' = _tollerance s.
Proof.
  destruct op as [state time dt|system|system x t dt| | | |]; cbn [solver.perform].
  - eexists; split; reflexivity.
  - destruct (do_step_total system s) as [s' H]. exists s'.
    split; [exact H | exact (do_step_tollerance _ _ _ H)].
  - eexists; split; [reflexivity|].
    unfold solver.do_step_on. destruct (rk4_call _ _ _ _ _); reflexivity.
  - exists s; split; reflexivity.
  - exists s; split; reflexivity.
  - exists s; split; reflexivity.
  - exists s; split; reflexivity.
Qed.

Lemma perform_all_tollerance (ops : list (solver.operation System)) :
  forall s : session,
  exists s', perform_all ops s = Some s' /\ _tollerance s' = _tollerance s.
Proof.
  induction ops as [|op ops IH]; intros s.
  - exists s; split; reflexivity.
  - destruct (perform_tollerance op s) as (s1 & H1 & T1).
    destruct (IH s1) as (s' & H & T).
    exists s'. cbn [solver.perform_all]. rewrite H1. cbn [obind].
    split; [exact H | congruence].
Qed.

(** *** The update of the step size *)

(** C1: every call of the step operation succeeds and stores, as the
    step size for the next call, [0.9 * dt * min(max((tol / (2 * e)) ^ 0.2, 0.3), 1.5)],
    where [dt] is the step size in effect when the call starts, [tol]
    the tolerance and [e] the floored error estimate of the call. *)
Theorem step_size_update (system : System) (s : session) :
  exists s', do_step system s = Some s' /\
    current_time_step s'
    = 0.9 * current_time_step s *
      Rmin (Rmax (pow (_tollerance s
                       / (2 * floor_error (error_estimate system s))) 0.2)
              0.3) 1.5.
Proof.
  destruct (do_step_total system s) as [s' H]. exists s'.
  split; [exact H|].
  unfold solver.current_time_step.
  rewrite (do_step_time_delta _ _ _ H). unfold solver.next_time_delta.
  rewrite std_min_Rmin, std_max_Rmax. reflexivity.
Qed.

(** C2: whatever the length of the state vector, the error estimate
    that the step operation computes before flooring is the largest
    absolute difference [|B[i] - A[i]|] between the half-step candidate
    [B] and the full-step candidate [A]: it bounds every component's
    difference, it is the difference of some component when there is
    one (and 0 for the empty vector), and it is the value that is
    floored and fed to the step-size formula. *)
Theorem error_estimate_is_max_norm (system : System) (s : session) :
  exists e,
    truncation_error (candidate_B system s) (candidate_A system s) = Some e /\
    e = inf_norm (vec_sub (candidate_B system s) (candidate_A system s)) /\
    (forall i, (i < length (_state s))%nat ->
       Rabs (nth i (candidate_B system s) 0 - nth i (candidate_A system s) 0)
       <= e) /\
    (_state s = [] -> e = 0) /\
    (_state s <> [] ->
       exists i, (i < length (_state s))%nat /\
         e = Rabs (nth i (candidate_B system s) 0
                   - nth i (candidate_A system s) 0)) /\
    exists s', do_step system s = Some s' /\
      current_time_step s'
      = next_time_delta (_tollerance s) (current_time_step s) (floor_error e).
Proof.
  pose proof (candidate_A_length system s) as HA.
  pose proof (candidate_B_length system s) as HB.
  exists (error_estimate system s).
  split; [apply truncation_error_spec; lia|].
  split; [reflexivity|].
  unfold solver.error_estimate.
  split.
  { intros i Hi.
    rewrite <- vec_sub_nth by lia.
    apply inf_norm_upper. rewrite vec_sub_length; lia. }
  split.
  { intros E. rewrite E in HB.
    destruct (candidate_B system s); [reflexivity | discriminate]. }
  split.
  { intros NE.
    destruct (inf_norm_attained
                (vec_sub (candidate_B system s) (candidate_A system s)))
      as (i & Hi & E).
    - intros E. apply (f_equal (@length R)) in E.
      rewrite vec_sub_length in E by lia.
      destruct (_state s); [congruence | simpl in *; lia].
    - rewrite vec_sub_length in Hi by lia.
      exists i. split; [lia|].
      rewrite E, vec_sub_nth by lia. reflexivity. }
  destruct (do_step_total system s) as [s' H]. exists s'.
  split; [exact H | exact (do_step_time_delta _ _ _ H)].
Qed.

(** C3: in every call of the step operation, candidate A is one
    integration over the whole step from the state and time before the
    call; candidate B is two integrations over half the step, the
    first from the state before the call at time [t], the second from
    the first one's result at time [t + dt / 2]; the state after the
    call is candidate B, and candidate A enters the result through the
    error comparison only. *)
Theorem state_becomes_half_step_candidate (system : System) (s : session)
    (stA stH stB : stepper_rk4) (A H B : State) :
  rk4_do_step system (_stepper1 s) (_state s) (_time s) (_time_delta s)
    = (stA, A) ->
  rk4_do_step system (_stepper2 s) (_state s) (_time s) (_time_delta s / 2)
    = (stH, H) ->
  rk4_do_step system stH H (_time s + _time_delta s / 2) (_time_delta s / 2)
    = (stB, B) ->
  exists e, truncation_error B A = Some e /\
    do_step system s
    = Some {| solver._stepper1 := stA;
              solver._stepper2 := stB;
              solver._state := B;
              solver._tollerance := _tollerance s;
              solver._time_delta :=
                next_time_delta (_tollerance s) (_time_delta s) (floor_error e);
              solver._time := _time s + _time_delta s |} /\
    (forall s', do_step system s = Some s' -> current_state s' = B).
Proof.
  replace (_time_delta s / 2) with (_time_delta s * 0.5) by lra.
  intros EA EH EB.
  pose proof (candidate_A_length system s) as HA.
  pose proof (candidate_B_length system s) as HB.
  pose proof (do_step_eq system s) as E.
  unfold solver.error_estimate in E.
  unfold solver.candidate_A, solver.candidate_B, solver.first_half in *.
  rewrite EA in *. rewrite EH in *. cbn [fst snd] in *. rewrite EB in *.
  cbn [fst snd] in *.
  exists (inf_norm (vec_sub B A)).
  split; [apply truncation_error_spec; lia|].
  split; [exact E|].
  intros s'. rewrite E. intros [= <-]. reflexivity.
Qed.

(** C4: in every call the divisor [2 * e] of the step-size formula is
    not zero; and when candidate A and candidate B are identical, the
    error estimate is 0 before flooring and the value used in the
    formula is exactly [1e-15]. *)
Theorem zero_error_is_floored (system : System) (s : session) :
  exists s', do_step system s = Some s' /\
    2 * floor_error (error_estimate system s) <> 0 /\
    (candidate_A system s = candidate_B system s ->
     truncation_error (candidate_B system s) (candidate_A system s) = Some 0 /\
     floor_error (error_estimate system s) = 1e-15 /\
     current_time_step s'
     = 0.9 * current_time_step s *
       Rmin (Rmax (pow (_tollerance s / (2 * 1e-15)) 0.2) 0.3) 1.5).
Proof.
  destruct (do_step_total system s) as [s' H].
  exists s'. split; [exact H|].
  split.
  { pose proof (floor_error_pos _ (error_estimate_nonneg system s)). lra. }
  intros EQ.
  assert (E0 : error_estimate system s = 0).
  { unfold solver.error_estimate. rewrite EQ. apply vec_sub_diag. }
  assert (F : floor_error (error_estimate system s) = 1e-15).
  { rewrite E0. unfold solver.floor_error.
    destruct (Req_dec_T 0 0); [reflexivity | congruence]. }
  split.
  { rewrite truncation_error_spec.
    - rewrite EQ, vec_sub_diag. reflexivity.
    - rewrite EQ. lia. }
  split; [exact F|].
  unfold solver.current_time_step.
  rewrite (do_step_time_delta _ _ _ H), F. unfold solver.next_time_delta.
  rewrite std_min_Rmin, std_max_Rmax. reflexivity.
Qed.

(** In exact arithmetic the step size after a call is the step size
    before the call times a factor in [[0.27, 1.35]]; so the ratio of
    the two, defined as soon as the step size before the call is not
    zero, lies in [[0.27, 1.35]].  On doubles the two products round:
    see [binary64_facts.step_size_is_clamped_product]. *)
Theorem step_size_ratio_bounds (system : System) (s : session) :
  exists s', do_step system s = Some s' /\
    (exists r, 0.27 <= r <= 1.35 /\
               current_time_step s' = r * current_time_step s) /\
    (current_time_step s <> 0 ->
     0.27 <= current_time_step s' / current_time_step s <= 1.35).
Proof.
  destruct (do_step_total system s) as [s' H]. exists s'.
  split; [exact H|].
  unfold solver.current_time_step in *.
  rewrite (do_step_time_delta _ _ _ H).
  destruct (next_time_delta_factor (_tollerance s) (_time_delta s)
              (floor_error (error_estimate system s))) as (c & Hc & ->).
  split.
  - exists (0.9 * c). split; lra.
  - intros Hdt.
    replace (0.9 * _time_delta s * c / _time_delta s) with (0.9 * c)
      by (field; exact Hdt).
    lra.
Qed.

(** In exact arithmetic a controller initialised with a strictly
    positive step size reports a strictly positive step size after any
    number of calls of the step operation, and every step size it used
    on the way was strictly positive.  On doubles the step size can
    underflow to zero: see [binary64_facts.step_size_never_negative]. *)
Theorem step_size_stays_positive (init : stepper_rk4) (system : System)
    (tol : R) (x0 : State) (t0 dt0 : Time) (k : nat) :
  0 < tol -> 0 < dt0 ->
  exists dts s',
    run system k (solver.initialize (solver.construct init tol) x0 t0 dt0)
    = Some (dts, s') /\
    0 < current_time_step s' /\
    Forall (fun d => 0 < d) dts.
Proof.
  intros _ Hdt.
  destruct (run_spec system k
              (solver.initialize (solver.construct init tol) x0 t0 dt0))
    as (dts & s' & Hrun & _ & _ & _ & Hpos).
  exists dts, s'. split; [exact Hrun|].
  apply Hpos. exact Hdt.
Qed.

(** C7: one call of the step operation advances the time by exactly the
    step size in effect when the call starts; hence after [k] calls,
    with [dts] the step sizes in effect at the start of each call, the
    time is the initial time plus the sum of [dts]. *)
Theorem time_advances_by_step_sizes (system : System) (s : session) (k : nat) :
  (exists s1, do_step system s = Some s1 /\
     current_time s1 = current_time s + current_time_step s) /\
  exists dts s', run system k s = Some (dts, s') /\
    length dts = k /\
    (forall i, (i < k)%nat ->
       exists di si, run system i s = Some (di, si) /\
                     nth i dts 0 = current_time_step si) /\
    current_time s' = current_time s + Rsum dts.
Proof.
  split.
  { destruct (do_step_total system s) as [s1 H]. exists s1.
    split; [exact H | exact (do_step_time _ _ _ H)]. }
  destruct (run_spec system k s) as (dts & s' & Hrun & Hlen & Ht & _).
  exists dts, s'. split; [exact Hrun|].
  split; [exact Hlen|].
  split; [|exact Ht].
  intros i Hi. exact (run_step_sizes system k s s' dts i Hrun Hi).
Qed.

(** C8: the tolerance given to the constructor is the tolerance of the
    controller after any sequence of public operations: [initialize],
    both [do_step] overloads and the accessors all leave it unchanged. *)
Theorem tolerance_is_never_modified (init : stepper_rk4) (tol : R)
    (ops : list (solver.operation System)) :
  exists s', perform_all ops (solver.construct init tol) = Some s' /\
    _tollerance s' = tol.
Proof.
  destruct (perform_all_tollerance ops (solver.construct init tol))
    as (s' & H & T).
  exists s'. split; [exact H | exact T].
Qed.

End adaptive_theory.

(** ** The trapezoidal stepper *)

Section trapezoidal_theory.

Variable system : State -> State -> Time -> State.

Local Abbreviation do_step := (numint.do_step system).

Lemma accumulate_operation_estimate (dt : Time) (x f1 f2 : State) :
  (length x <= length f1)%nat -> (length x <= length f2)%nat ->
  numint.accumulate_operation Rmult x (0.5 * dt) f1 (0.5 * dt) f2
  = Some (numint.trapezoidal_estimate x f1 f2 dt).
Proof.
  revert f1 f2; induction x as [|xi x IH]; intros f1 f2 H1 H2.
  - reflexivity.
  - destruct f1 as [|a f1]; simpl in H1; [lia|].
    destruct f2 as [|b f2]; simpl in H2; [lia|].
    cbn [numint.accumulate_operation numint.trapezoidal_estimate].
    rewrite IH by lia. cbn [obind].
    replace (xi + (0.5 * dt * a + 0.5 * dt * b))
      with (xi + 0.5 * dt * a + 0.5 * dt * b) by lra.
    reflexivity.
Qed.

Lemma trapezoidal_estimate_length (dt : Time) (x f1 f2 : State) :
  (length x <= length f1)%nat -> (length x <= length f2)%nat ->
  length (numint.trapezoidal_estimate x f1 f2 dt) = length x.
Proof.
  revert f1 f2; induction x as [|xi x IH]; intros f1 f2 H1 H2.
  - reflexivity.
  - destruct f1 as [|a f1]; simpl in H1; [lia|].
    destruct f2 as [|b f2]; simpl in H2; [lia|].
    simpl. rewrite IH by lia. reflexivity.
Qed.

Lemma trapezoidal_estimate_nth (dt : Time) (x f1 f2 : State) (i : nat) :
  (i < length x)%nat ->
  (length x <= length f1)%nat -> (length x <= length f2)%nat ->
  nth i (numint.trapezoidal_estimate x f1 f2 dt) 0
  = nth i x 0 + 0.5 * dt * nth i f1 0 + 0.5 * dt * nth i f2 0.
Proof.
  revert f1 f2 i; induction x as [|xi x IH]; intros f1 f2 i Hi H1 H2.
  - simpl in Hi; lia.
  - destruct f1 as [|a f1]; simpl in H1; [lia|].
    destruct f2 as [|b f2]; simpl in H2; [lia|].
    destruct i as [|i]; simpl; [reflexivity|].
    apply IH; simpl in Hi; lia.
Qed.

Lemma incr_ulong_small (n : Z) :
  (0 <= n < numint.ULONG_MAX)%Z -> numint.incr_ulong n = (n + 1)%Z.
Proof.
  intros H. unfold numint.incr_ulong.
  apply Z.mod_small. unfold numint.ULONG_MAX in *. lia.
Qed.

Lemma do_step_eq_trapezoidal (st : numint.stepper_trapezoidal)
    (x : State) (t dt : Time) :
  (length x <= length (system x (numint.m_dxdt_start st) t))%nat ->
  (length x <= length (system x (numint.m_dxdt_end st) (t + dt)%R))%nat ->
  do_step st x t dt
  = Some ({| numint.m_dxdt_start := system x (numint.m_dxdt_start st) t;
             numint.m_dxdt_end := system x (numint.m_dxdt_end st) (t + dt);
             numint.m_steps := numint.incr_ulong (numint.m_steps st) |},
          numint.trapezoidal_estimate x
            (system x (numint.m_dxdt_start st) t)
            (system x (numint.m_dxdt_end st) (t + dt)) dt).
Proof.
  intros H1 H2. unfold numint.do_step.
  rewrite accumulate_operation_estimate by assumption.
  reflexivity.
Qed.

Lemma resize_length (n : nat) (v : State) : length (numint.resize n v) = n.
Proof.
  unfold numint.resize.
  rewrite length_app, length_firstn, repeat_length. lia.
Qed.

(** After [adjust_size] on a resizable container both buffers have the
    length of the reference vector; a system that fills its output
    buffer without resizing it then leaves them covering the state. *)
Lemma adjust_size_covers (st : numint.stepper_trapezoidal)
    (x : State) (t dt : Time) :
  (forall y dxdt u, length (system y dxdt u) = length dxdt) ->
  let st' := numint.adjust_size true st x in
  (length x <= length (system x (numint.m_dxdt_start st') t))%nat /\
  (length x <= length (system x (numint.m_dxdt_end st') (t + dt)%R))%nat.
Proof.
  intros Hsys st'. rewrite !Hsys.
  unfold st', numint.adjust_size. cbn [numint.m_dxdt_start numint.m_dxdt_end].
  rewrite !resize_length. split; lia.
Qed.

(** C9: a call of [do_step] on buffers that cover the state succeeds;
    it overwrites [x] with the stepper's estimate at [t + dt] (of the
    same length) and increments the step counter (by exactly one as
    long as the counter has not reached the largest [unsigned long]);
    nothing else that the public members show changes. *)
Theorem trapezoidal_do_step_effect (st : numint.stepper_trapezoidal)
    (x : State) (t dt : Time) :
  (length x <= length (system x (numint.m_dxdt_start st) t))%nat ->
  (length x <= length (system x (numint.m_dxdt_end st) (t + dt)%R))%nat ->
  exists st' x', do_step st x t dt = Some (st', x') /\
    x' = numint.trapezoidal_estimate x
           (system x (numint.m_dxdt_start st) t)
           (system x (numint.m_dxdt_end st) (t + dt)) dt /\
    length x' = length x /\
    numint.steps st' = numint.incr_ulong (numint.steps st) /\
    numint.order_step st' = numint.order_step st /\
    ((0 <= numint.steps st < numint.ULONG_MAX)%Z ->
     numint.steps st' = (numint.steps st + 1)%Z /\
     numint.observable st'
     = ((numint.steps st + 1)%Z, numint.order_step st,
        numint.is_adaptive_stepper)).
Proof.
  intros H1 H2.
  eexists _, _. split; [apply do_step_eq_trapezoidal; assumption|].
  split; [reflexivity|].
  split; [apply trapezoidal_estimate_length; assumption|].
  split; [reflexivity|].
  split; [reflexivity|].
  intros Hn. unfold numint.observable, numint.steps in *. cbn.
  rewrite incr_ulong_small by exact Hn. split; reflexivity.
Qed.

(** C10: in every call of [do_step] on buffers that cover the state,
    both derivative samples are taken at the input state [x], the
    first at time [t] and the second at time [t + dt], and every
    component of the new state is
    [x[i] + 0.5 * dt * f(x, t)[i] + 0.5 * dt * f(x, t + dt)[i]]. *)
Theorem trapezoidal_samples_at_input_state (st : numint.stepper_trapezoidal)
    (x : State) (t dt : Time) :
  (length x <= length (system x (numint.m_dxdt_start st) t))%nat ->
  (length x <= length (system x (numint.m_dxdt_end st) (t + dt)%R))%nat ->
  exists st' x', do_step st x t dt = Some (st', x') /\
    numint.m_dxdt_start st' = system x (numint.m_dxdt_start st) t /\
    numint.m_dxdt_end st' = system x (numint.m_dxdt_end st) (t + dt) /\
    length x' = length x /\
    forall i, (i < length x)%nat ->
      nth i x' 0
      = nth i x 0
        + 0.5 * dt * nth i (system x (numint.m_dxdt_start st) t) 0
        + 0.5 * dt * nth i (system x (numint.m_dxdt_end st) (t + dt)) 0.
Proof.
  intros H1 H2.
  eexists _, _. split; [apply do_step_eq_trapezoidal; assumption|].
  split; [reflexivity|].
  split; [reflexivity|].
  split; [apply trapezoidal_estimate_length; assumption|].
  intros i Hi. apply trapezoidal_estimate_nth; assumption.
Qed.

End trapezoidal_theory.

(** ** The properties at work on exponential decay

    The controller runs on [dx/dt = - x] from [x = 1] at [t = 0] with
    tolerance [1e-4] and initial step [1e-3]; the trivial system
    [dx/dt = 0] on the state [[1; 2]] is the rate [0]. *)

Lemma Decay_do_step_size (lambda : R) (st : nat) (x : State) (t dt : Time) :
  length (snd (Decay.do_step lambda st x t dt)) = length x.
Proof. unfold Decay.do_step. cbn [snd]. apply length_map. Qed.

Lemma step_size_update_witness :
  (forall lambda st x t dt,
     length (snd (Decay.do_step lambda st x t dt)) = length x) /\
  exists s', Decay.step 1 (Decay.session 1e-4 [1] 0 1e-3) = Some s' /\
    solver.current_time_step s'
    = 0.9 * 1e-3 *
      Rmin (Rmax (Rpower (1e-4
                          / (2 * solver.floor_error
                                   (solver.error_estimate Decay.do_step 1
                                      (Decay.session 1e-4 [1] 0 1e-3)))) 0.2)
              0.3) 1.5.
Proof.
  split; [exact Decay_do_step_size|].
  exact (step_size_update R nat Decay.do_step Rpower Decay_do_step_size
           1 (Decay.session 1e-4 [1] 0 1e-3)).
Defined.

Lemma error_estimate_is_max_norm_witness :
  (forall lambda st x t dt,
     length (snd (Decay.do_step lambda st x t dt)) = length x) /\
  exists e,
    solver.truncation_error
      (solver.candidate_B Decay.do_step 1 (Decay.session 1e-4 [1; 2] 0 1e-3))
      (solver.candidate_A Decay.do_step 1 (Decay.session 1e-4 [1; 2] 0 1e-3))
    = Some e /\
    Rabs (nth 1 (solver.candidate_B Decay.do_step 1
                   (Decay.session 1e-4 [1; 2] 0 1e-3)) 0
          - nth 1 (solver.candidate_A Decay.do_step 1
                     (Decay.session 1e-4 [1; 2] 0 1e-3)) 0) <= e.
Proof.
  split; [exact Decay_do_step_size|].
  destruct (error_estimate_is_max_norm R nat Decay.do_step Rpower
              Decay_do_step_size 1 (Decay.session 1e-4 [1; 2] 0 1e-3))
    as (e & He & _ & Hle & _).
  exists e. split; [exact He|].
  apply Hle. simpl. lia.
Defined.

Lemma state_becomes_half_step_candidate_witness :
  (forall lambda st x t dt,
     length (snd (Decay.do_step lambda st x t dt)) = length x) /\
  exists e s',
    Decay.step 1 (Decay.session 1e-4 [1] 0 1e-3) = Some s' /\
    solver.truncation_error
      [1 * Decay.rk4_factor (1 * (1e-3 / 2)) * Decay.rk4_factor (1 * (1e-3 / 2))]
      [1 * Decay.rk4_factor (1 * 1e-3)] = Some e /\
    solver.current_state s'
    = [1 * Decay.rk4_factor (1 * (1e-3 / 2)) * Decay.rk4_factor (1 * (1e-3 / 2))].
Proof.
  split; [exact Decay_do_step_size|].
  destruct (state_becomes_half_step_candidate R nat Decay.do_step Rpower
              Decay_do_step_size 1 (Decay.session 1e-4 [1] 0 1e-3)
              1%nat 1%nat 2%nat
              [1 * Decay.rk4_factor (1 * 1e-3)]
              [1 * Decay.rk4_factor (1 * (1e-3 / 2))]
              [1 * Decay.rk4_factor (1 * (1e-3 / 2))
               * Decay.rk4_factor (1 * (1e-3 / 2))]
              eq_refl eq_refl eq_refl)
    as (e & He & Hs & _).
  eexists e, _. split; [exact Hs|].
  split; [exact He | reflexivity].
Defined.

Lemma zero_error_is_floored_witness :
  (forall lambda st x t dt,
     length (snd (Decay.do_step lambda st x t dt)) = length x) /\
  solver.candidate_A Decay.do_step 0 (Decay.session 1e-4 [1; 2] 0 1e-3)
  = solver.candidate_B Decay.do_step 0 (Decay.session 1e-4 [1; 2] 0 1e-3) /\
  exists s', Decay.step 0 (Decay.session 1e-4 [1; 2] 0 1e-3) = Some s' /\
    solver.floor_error
      (solver.error_estimate Decay.do_step 0 (Decay.session 1e-4 [1; 2] 0 1e-3))
    = 1e-15 /\
    solver.current_time_step s'
    = 0.9 * 1e-3 * Rmin (Rmax (Rpower (1e-4 / (2 * 1e-15)) 0.2) 0.3) 1.5.
Proof.
  assert (E : solver.candidate_A Decay.do_step 0 (Decay.session 1e-4 [1; 2] 0 1e-3)
              = solver.candidate_B Decay.do_step 0
                  (Decay.session 1e-4 [1; 2] 0 1e-3)).
  { cbv [solver.candidate_A solver.candidate_B solver.first_half Decay.session
         solver.initialize solver.construct Decay.do_step Decay.rk4_factor
         solver._state solver._time solver._time_delta solver._stepper1
         solver._stepper2 fst snd map].
    repeat (f_equal; try lra). }
  split; [exact Decay_do_step_size|].
  split; [exact E|].
  destruct (zero_error_is_floored R nat Decay.do_step Rpower Decay_do_step_size
              0 (Decay.session 1e-4 [1; 2] 0 1e-3))
    as (s' & Hs & _ & H).
  destruct (H E) as (_ & HF & Hdt).
  exists s'. split; [exact Hs|]. split; [exact HF | exact Hdt].
Defined.

Lemma step_size_ratio_bounds_witness :
  (forall lambda st x t dt,
     length (snd (Decay.do_step lambda st x t dt)) = length x) /\
  1e-3 <> 0 /\
  exists s', Decay.step 1 (Decay.session 1e-4 [1] 0 1e-3) = Some s' /\
    0.27 <= solver.current_time_step s' / 1e-3 <= 1.35.
Proof.
  split; [exact Decay_do_step_size|].
  assert (N : 1e-3 <> 0) by lra.
  split; [exact N|].
  destruct (step_size_ratio_bounds R nat Decay.do_step Rpower
              Decay_do_step_size 1 (Decay.session 1e-4 [1] 0 1e-3))
    as (s' & Hs & _ & Hr).
  exists s'. split; [exact Hs | exact (Hr N)].
Defined.

Lemma step_size_stays_positive_witness :
  (forall lambda st x t dt,
     length (snd (Decay.do_step lambda st x t dt)) = length x) /\
  0 < 1e-4 /\ 0 < 1e-3 /\
  exists dts s',
    solver.run Decay.do_step Rpower 1 3 (Decay.session 1e-4 [1] 0 1e-3)
    = Some (dts, s') /\
    0 < solver.current_time_step s' /\ Forall (fun d => 0 < d) dts.
Proof.
  split; [exact Decay_do_step_size|].
  assert (T : 0 < 1e-4) by lra.
  assert (D : 0 < 1e-3) by lra.
  split; [exact T|]. split; [exact D|].
  exact (step_size_stays_positive R nat Decay.do_step Rpower Decay_do_step_size
           O 1 1e-4 [1] 0 1e-3 3%nat T D).
Defined.

Lemma time_advances_by_step_sizes_witness :
  (forall lambda st x t dt,
     length (snd (Decay.do_step lambda st x t dt)) = length x) /\
  exists dts s',
    solver.run Decay.do_step Rpower 1 2 (Decay.session 1e-4 [1] 0 1e-3)
    = Some (dts, s') /\
    length dts = 2%nat /\
    nth 0 dts 0 = 1e-3 /\
    solver.current_time s' = 0 + Rsum dts.
Proof.
  split; [exact Decay_do_step_size|].
  destruct (time_advances_by_step_sizes R nat Decay.do_step Rpower
              Decay_do_step_size 1 (Decay.session 1e-4 [1] 0 1e-3) 2)
    as (_ & dts & s' & Hrun & Hlen & Hnth & Ht).
  exists dts, s'. split; [exact Hrun|]. split; [exact Hlen|].
  split; [|exact Ht].
  destruct (Hnth O) as (d0 & s0 & H0 & ->); [lia|].
  cbn [solver.run] in H0. injection H0 as _ <-. reflexivity.
Defined.

Lemma tolerance_is_never_modified_witness :
  (forall lambda st x t dt,
     length (snd (Decay.do_step lambda st x t dt)) = length x) /\
  exists s',
    solver.perform_all Decay.do_step Decay.do_step Rpower
      [solver.Initialize R [1; 2] 0 1e-3; solver.Step R 1;
       solver.CurrentTimeStep R; solver.StepOn R 1 [3] 0 0.5; solver.Step R 1;
       solver.Initialize R [4] 1 1e-2; solver.Step R 2]
      (solver.construct O 1e-4) = Some s' /\
    solver._tollerance s' = 1e-4.
Proof.
  split; [exact Decay_do_step_size|].
  exact (tolerance_is_never_modified R nat Decay.do_step Decay.do_step Rpower
           Decay_do_step_size O 1e-4 _).
Defined.

Lemma trapezoidal_do_step_effect_witness :
  le (length [1; 2]) (length (Decay.system 1 [1; 2] [] 0)) /\
  le (length [1; 2]) (length (Decay.system 1 [1; 2] [] (0 + 0.5))) /\
  (0 <= numint.steps numint.construct < numint.ULONG_MAX)%Z /\
  exists st' x',
    numint.do_step (Decay.system 1) numint.construct [1; 2] 0 0.5
    = Some (st', x') /\
    length x' = 2%nat /\
    numint.steps st' = 1%Z /\
    numint.observable st' = (1%Z, 1%Z, false).
Proof.
  assert (H1 : le (length [1; 2]) (length (Decay.system 1 [1; 2] [] 0)))
    by (simpl; lia).
  assert (H2 : le (length [1; 2])
                   (length (Decay.system 1 [1; 2] [] (0 + 0.5))))
    by (simpl; lia).
  assert (H3 : (0 <= numint.steps numint.construct < numint.ULONG_MAX)%Z)
    by (cbv; split; congruence).
  split; [exact H1|]. split; [exact H2|]. split; [exact H3|].
  destruct (trapezoidal_do_step_effect (Decay.system 1) numint.construct
              [1; 2] 0 0.5 H1 H2)
    as (st' & x' & Hs & _ & Hlen & _ & _ & Hobs).
  destruct (Hobs H3) as [Hsteps Ho].
  exists st', x'. split; [exact Hs|]. split; [exact Hlen|].
  split; [exact Hsteps | exact Ho].
Defined.

Lemma trapezoidal_samples_at_input_state_witness :
  le (length [1; 2]) (length (Decay.system 1 [1; 2] [] 0)) /\
  le (length [1; 2]) (length (Decay.system 1 [1; 2] [] (0 + 0.5))) /\
  exists st' x',
    numint.do_step (Decay.system 1) numint.construct [1; 2] 0 0.5
    = Some (st', x') /\
    nth 1 x' 0 = 2 + 0.5 * 0.5 * (- 1 * 2) + 0.5 * 0.5 * (- 1 * 2).
Proof.
  assert (H1 : le (length [1; 2]) (length (Decay.system 1 [1; 2] [] 0)))
    by (simpl; lia).
  assert (H2 : le (length [1; 2])
                   (length (Decay.system 1 [1; 2] [] (0 + 0.5))))
    by (simpl; lia).
  split; [exact H1|]. split; [exact H2|].
  destruct (trapezoidal_samples_at_input_state (Decay.system 1)
              numint.construct [1; 2] 0 0.5 H1 H2)
    as (st' & x' & Hs & _ & _ & _ & Hnth).
  exists st', x'. split; [exact Hs|].
  apply (Hnth 1%nat). simpl; lia.
Defined.

(** ** Worked examples *)

(** The error estimate is a maximum: on candidates differing by 3 and
    by 4 it is 4, neither their sum 7 nor their average 3.5. *)
Example truncation_error_example :
  solver.truncation_error [3; -4] [0; 0] = Some 4.
Proof.
  rewrite truncation_error_spec by (simpl; lia).
  f_equal. unfold inf_norm, vec_sub. cbn [combine map fold_right fst snd].
  replace (3 - 0) with 3 by lra. replace (-4 - 0) with (Ropp 4) by lra.
  rewrite Rabs_Ropp, !Rabs_pos_eq by lra.
  rewrite (Rmax_left 4 0) by lra. apply Rmax_right; lra.
Qed.

(** A state vector that the full-step candidate does not cover is read
    past its end. *)
Example truncation_error_out_of_range :
  solver.truncation_error [1; 2] [1] = None.
Proof. reflexivity. Qed.

(** On [dx/dt = - x] from [x = 1] with [dt = 1] the stepper's new state
    is [1 + 0.5 * (-1) + 0.5 * (-1) = 0]: the second sample is the
    derivative of the input state again, not of an end-point prediction
    (which would give 0.5). *)
Example trapezoidal_decay_example :
  exists st', numint.do_step (Decay.system 1) numint.construct [1] 0 1
              = Some (st', [0]) /\
              numint.steps st' = 1%Z.
Proof.
  eexists. split.
  - rewrite do_step_eq_trapezoidal by (simpl; lia).
    cbn [Decay.system map numint.trapezoidal_estimate numint.m_dxdt_start
         numint.m_dxdt_end numint.construct].
    replace (1 + 0.5 * 1 * (- (1) * 1) + 0.5 * 1 * (- (1) * 1)) with 0 by lra.
    reflexivity.
  - reflexivity.
Qed.

(** [std::pow(5e10, 0.2)] is above the clamp ceiling. *)
Lemma Rpower_above_ceiling : 1.5 <= Rpower (1e-4 / (2 * 1e-15)) 0.2.
Proof.
  assert (P : Rpower (1.5 ^ 5) 0.2 = 1.5).
  { rewrite <- (Rpower_pow 5 1.5) by lra.
    rewrite Rpower_mult.
    replace (INR 5 * 0.2) with 1 by (simpl; lra).
    apply Rpower_1; lra. }
  rewrite <- P at 1.
  apply Rle_Rpower_l; [lra|].
  split; [|lra].
  apply pow_lt; lra.
Qed.

(** The trivial system [dx/dt = 0] on [[1; 2]]: one call leaves the
    state as it is, advances the time by the initial step size and, the
    two candidates being identical, raises the step size by the largest
    factor the clamp allows. *)
Example no_op_system_example :
  exists s', Decay.step 0 (Decay.session 1e-4 [1; 2] 0 1e-3) = Some s' /\
    solver.current_state s' = [1; 2] /\
    solver.current_time s' = 1e-3 /\
    solver.current_time_step s' = 1.35e-3.
Proof.
  set (s := Decay.session 1e-4 [1; 2] 0 1e-3).
  assert (A : solver.candidate_A Decay.do_step 0 s = [1; 2]).
  { cbv [s solver.candidate_A Decay.session solver.initialize solver.construct
         Decay.do_step Decay.rk4_factor solver._state solver._time
         solver._time_delta solver._stepper1 snd map].
    repeat (f_equal; try lra). }
  assert (B : solver.candidate_B Decay.do_step 0 s = [1; 2]).
  { cbv [s solver.candidate_B solver.first_half Decay.session solver.initialize
         solver.construct Decay.do_step Decay.rk4_factor solver._state
         solver._time solver._time_delta solver._stepper2 fst snd map].
    repeat (f_equal; try lra). }
  eexists. split; [apply (do_step_eq R nat Decay.do_step Rpower Decay_do_step_size)|].
  cbn [solver.current_state solver.current_time solver.current_time_step
       solver._state solver._time solver._time_delta].
  fold s. split; [exact B|].
  split; [cbn; lra|].
  unfold solver.error_estimate. rewrite A, B, vec_sub_diag.
  unfold solver.floor_error. destruct (Req_dec_T 0 0) as [_|N]; [|congruence].
  unfold solver.next_time_delta.
  rewrite std_min_Rmin, std_max_Rmax.
  pose proof Rpower_above_ceiling as P.
  cbn [solver._tollerance solver._time_delta s Decay.session solver.initialize
       solver.construct].
  rewrite Rmax_left by lra. rewrite Rmin_right by lra.
  lra.
Qed.

(** * Further behaviour of the code *)

(** ** Vectors *)

Lemma inf_norm_zero (v : list R) : inf_norm v = 0 -> Forall (fun a => a = 0) v.
Proof.
  induction v as [|a v IH]; intros H; constructor.
  - change (inf_norm (a :: v)) with (Rmax (Rabs a) (inf_norm v)) in H.
    pose proof (Rmax_l (Rabs a) (inf_norm v)) as L.
    pose proof (Rabs_pos a) as P.
    destruct (Req_dec_T a 0) as [E|N]; [exact E|].
    apply Rabs_pos_lt in N. lra.
  - apply IH.
    change (inf_norm (a :: v)) with (Rmax (Rabs a) (inf_norm v)) in H.
    pose proof (Rmax_r (Rabs a) (inf_norm v)) as L.
    pose proof (inf_norm_nonneg v) as P. lra.
Qed.

Lemma vec_sub_zero_eq (b a : list R) :
  length b = length a -> Forall (fun d => d = 0) (vec_sub b a) -> b = a.
Proof.
  revert a; induction b as [|x b IH]; intros [|y a] Hlen H; simpl in Hlen;
    try discriminate; [reflexivity|].
  unfold vec_sub in H. cbn [combine map fst snd] in H.
  inversion H as [|d l Hd Hl]; subst.
  f_equal; [lra|].
  apply IH; [lia | exact Hl].
Qed.

Lemma abs_error_loop_none (state y0 : State) (acc : R) :
  solver.abs_error_loop state y0 acc = None <-> (length y0 < length state)%nat.
Proof.
  revert y0 acc; induction state as [|si state IH]; intros y0 acc.
  - simpl. split; [discriminate | lia].
  - destruct y0 as [|yi y0]; cbn [solver.abs_error_loop length].
    + split; [lia | reflexivity].
    + rewrite IH. lia.
Qed.

Lemma clamp_monotone (p q : R) :
  p <= q -> std_min (std_max p 0.3) 1.5 <= std_min (std_max q 0.3) 1.5.
Proof.
  intros H. unfold std_min, std_max.
  destruct (Rlt_dec p 0.3), (Rlt_dec q 0.3);
    repeat match goal with |- context [Rlt_dec ?a ?b] => destruct (Rlt_dec a b) end;
    lra.
Qed.

Lemma Rpower_fifth_root (a : R) : 0 < a -> Rpower (a ^ 5) 0.2 = a.
Proof.
  intros H.
  rewrite <- (Rpower_pow 5 a) by exact H.
  rewrite Rpower_mult.
  replace (INR 5 * 0.2) with 1 by (simpl; lra).
  apply Rpower_1, H.
Qed.

(** ** The adaptive controller beyond one call *)

Section adaptive_behaviour.

Variable System : Type.
Variable stepper_rk4 : Type.
Variable rk4_do_step :
  System -> stepper_rk4 -> State -> Time -> Time -> stepper_rk4 * State.
Variable pow : R -> R -> R.

Local Abbreviation session := (solver.stepper_adaptive_rk4 stepper_rk4).
Local Abbreviation do_step := (solver.do_step rk4_do_step pow).
Local Abbreviation run := (solver.run rk4_do_step pow).
Local Abbreviation candidate_A := (solver.candidate_A rk4_do_step).
Local Abbreviation candidate_B := (solver.candidate_B rk4_do_step).
Local Abbreviation error_estimate := (solver.error_estimate rk4_do_step).
Local Abbreviation next_time_delta := (solver.next_time_delta pow).
Local Abbreviation floor_error := solver.floor_error.
Local Abbreviation truncation_error := solver.truncation_error.
Local Abbreviation current_state := solver.current_state.
Local Abbreviation current_time := solver.current_time.
Local Abbreviation current_time_step := solver.current_time_step.
Local Abbreviation _tollerance := solver._tollerance.

(** [do_step] in terms of the error loop, whatever the integrator does
    to the length of the vector. *)
Lemma do_step_cases (system : System) (s : session) :
  match truncation_error (candidate_B system s) (candidate_A system s) with
  | None => do_step system s = None
  | Some e =>
      exists s', do_step system s = Some s' /\
        current_state s' = candidate_B system s /\
        current_time s' = current_time s + current_time_step s /\
        current_time_step s'
        = next_time_delta (_tollerance s) (current_time_step s) (floor_error e)
  end.
Proof.
  unfold solver.do_step, solver.candidate_A, solver.candidate_B,
    solver.first_half.
  destruct (rk4_do_step system (solver._stepper1 s) (solver._state s)
              (solver._time s) (solver._time_delta s)) as [st1 y0].
  destruct (rk4_do_step system (solver._stepper2 s) (solver._state s)
              (solver._time s) (solver._time_delta s * 0.5)) as [st2 x1].
  cbn [fst snd].
  destruct (rk4_do_step system st2 x1 (solver._time s + solver._time_delta s * 0.5)
              (solver._time_delta s * 0.5)) as [st2' x].
  cbn [fst snd].
  destruct (truncation_error x y0) as [e|]; cbn [obind]; [|reflexivity].
  eexists. split; [reflexivity|]. repeat split.
Qed.

(** X1: whatever the fixed-step integrator does to the length of the
    vector, [do_step] is undefined (it reads [_y0] past its end) exactly
    when the full-step candidate is shorter than the half-step
    candidate; a full-step candidate that is longer is not an error. *)
Theorem do_step_undefined_iff (system : System) (s : session) :
  do_step system s = None <->
  (length (candidate_A system s) < length (candidate_B system s))%nat.
Proof.
  pose proof (do_step_cases system s) as H.
  rewrite <- (abs_error_loop_none (candidate_B system s) (candidate_A system s) 0).
  change (solver.abs_error_loop (candidate_B system s) (candidate_A system s) 0)
    with (truncation_error (candidate_B system s) (candidate_A system s)).
  destruct (truncation_error (candidate_B system s) (candidate_A system s)) as [e|].
  - destruct H as (s' & -> & _). split; discriminate.
  - split; [reflexivity | intros _; exact H].
Qed.

(** From here on the fixed-step integrator keeps the length of the
    vector it overwrites. *)
Hypothesis rk4_size : forall system st x t dt,
  length (snd (rk4_do_step system st x t dt)) = length x.

(** X2: the error estimate is zero exactly when the two candidates agree
    in every component, so the [1e-15] guard replaces the estimate in
    that case only; when they differ the estimate is positive and
    enters the step-size formula as it is, however small. *)
Theorem error_zero_iff_candidates_agree (system : System) (s : session) :
  (truncation_error (candidate_B system s) (candidate_A system s) = Some 0
   <-> candidate_B system s = candidate_A system s) /\
  (candidate_B system s <> candidate_A system s ->
   0 < error_estimate system s /\
   floor_error (error_estimate system s) = error_estimate system s).
Proof.
  pose proof (candidate_A_length _ _ _ rk4_size system s) as HA.
  pose proof (candidate_B_length _ _ _ rk4_size system s) as HB.
  assert (Z : error_estimate system s = 0
              <-> candidate_B system s = candidate_A system s).
  { unfold solver.error_estimate. split.
    - intros E. apply vec_sub_zero_eq; [congruence|].
      apply inf_norm_zero, E.
    - intros ->. apply vec_sub_diag. }
  split.
  - rewrite truncation_error_spec by lia.
    fold (error_estimate system s). rewrite <- Z.
    split; [intros [= E]; exact E | intros ->; reflexivity].
  - intros N.
    pose proof (error_estimate_nonneg _ _ rk4_do_step system s) as P.
    assert (NZ : error_estimate system s <> 0) by (intros E; apply N, Z, E).
    split; [lra|].
    unfold solver.floor_error.
    destruct (Req_dec_T (error_estimate system s) 0); [contradiction | reflexivity].
Qed.

(** [k] calls scale the step size by a factor between [0.27 ^ k] and
    [1.35 ^ k], move the time by a non-negative multiple of the initial
    step size (at least one whole step as soon as there is a call) and
    keep the length of the state. *)
Lemma run_scaling (system : System) (k : nat) :
  forall s : session,
  exists dts s' r c, run system k s = Some (dts, s') /\
    current_time_step s' = r * current_time_step s /\
    0.27 ^ k <= r <= 1.35 ^ k /\
    current_time s' = current_time s + c * current_time_step s /\
    0 <= c /\ ((0 < k)%nat -> 1 <= c) /\
    length (current_state s') = length (current_state s).
Proof.
  unfold solver.current_time_step, solver.current_time, solver.current_state.
  induction k as [|k IH]; intros s.
  - exists [], s, 1, 0. cbn [solver.run].
    change (0.27 ^ 0) with 1. change (1.35 ^ 0) with 1.
    repeat split; try lra; lia.
  - destruct (do_step_total _ _ _ pow rk4_size system s) as [s1 H1].
    destruct (IH s1) as (dts & s' & r1 & c1 & Hrun & Hdt & Hr & Ht & Hc & _ & Hlen).
    pose proof (do_step_time_delta _ _ _ pow rk4_size _ _ _ H1) as D1.
    pose proof (do_step_time _ _ _ pow rk4_size _ _ _ H1) as T1.
    destruct (next_time_delta_factor pow (_tollerance s) (solver._time_delta s)
                (floor_error (error_estimate system s))) as (q & Hq & Eq).
    rewrite Eq in D1.
    assert (P27 : 0 < 0.27 ^ k) by (apply pow_lt; lra).
    assert (P135 : 0 < 1.35 ^ k) by (apply pow_lt; lra).
    exists (solver._time_delta s :: dts), s', (r1 * (0.9 * q)), (1 + c1 * (0.9 * q)).
    cbn [solver.run]. rewrite H1. cbn [obind]. rewrite Hrun. cbn [obind fst snd].
    split; [reflexivity|].
    split; [rewrite Hdt, D1; unfold Time; ring|].
    change (0.27 ^ S k) with (0.27 * 0.27 ^ k).
    change (1.35 ^ S k) with (1.35 * 1.35 ^ k).
    split; [split; nra|].
    split; [rewrite Ht, T1, D1; unfold Time; ring|].
    split; [nra|].
    split; [intros _; nra|].
    rewrite Hlen.
    pose proof (do_step_eq _ _ _ pow rk4_size system s) as E.
    rewrite H1 in E. injection E as ->. cbn [solver._state].
    apply (candidate_B_length _ _ _ rk4_size).
Qed.

(** X4: with a positive tolerance a step size of zero is never left:
    every later call keeps the step size at zero and the time where it
    was. *)
Theorem zero_step_size_is_absorbing (system : System) (s : session) (k : nat) :
  0 < _tollerance s ->
  current_time_step s = 0 ->
  exists dts s', run system k s = Some (dts, s') /\
    current_time_step s' = 0 /\
    current_time s' = current_time s.
Proof.
  intros _ Z.
  destruct (run_scaling system k s)
    as (dts & s' & r & c & H & Hdt & _ & Ht & _).
  exists dts, s'. split; [exact H|].
  rewrite Hdt, Ht, Z. unfold Time. split; ring.
Qed.

(** X5: with a positive tolerance neither the time nor the step size
    ever moves against the sign of the step size: after any number of
    calls that start with a positive step size the time has not
    decreased and the step size is not negative; after any number of
    calls that start with a negative step size the time has not
    increased and the step size is not positive. *)
Theorem time_moves_with_step_sign (system : System) (s : session) (k : nat) :
  0 < _tollerance s ->
  exists dts s', run system k s = Some (dts, s') /\
    (0 < current_time_step s ->
     current_time s <= current_time s' /\ 0 <= current_time_step s') /\
    (current_time_step s < 0 ->
     current_time s' <= current_time s /\ current_time_step s' <= 0).
Proof.
  intros _.
  destruct (run_scaling system k s)
    as (dts & s' & r & c & H & Hdt & Hr & Ht & Hc & _).
  assert (P27 : 0 < 0.27 ^ k) by (apply pow_lt; lra).
  exists dts, s'. split; [exact H|].
  rewrite Hdt, Ht. split; intros P; split; nra.
Qed.

(** X6: the length of the state vector never changes over a run of calls
    of the step operation. *)
Theorem state_length_is_invariant (system : System) (s : session) (k : nat) :
  exists dts s', run system k s = Some (dts, s') /\
    length (current_state s') = length (current_state s).
Proof.
  destruct (run_scaling system k s) as (dts & s' & r & c & H & Hrest).
  exists dts, s'. split; [exact H | apply Hrest].
Qed.

(** X7: if the power function is monotone, then for the same positive
    tolerance and the same non-negative step size a call that meets a
    larger (non-zero) error estimate never stores a larger step size
    than a call that meets a smaller one. *)
Theorem larger_error_smaller_step (system : System) (s1 s2 : session) :
  (forall a b, 0 < a <= b -> pow a 0.2 <= pow b 0.2) ->
  _tollerance s1 = _tollerance s2 ->
  current_time_step s1 = current_time_step s2 ->
  0 < _tollerance s1 -> 0 <= current_time_step s1 ->
  0 < error_estimate system s1 <= error_estimate system s2 ->
  exists s1' s2', do_step system s1 = Some s1' /\
    do_step system s2 = Some s2' /\
    current_time_step s2' <= current_time_step s1'.
Proof.
  unfold solver.current_time_step.
  intros Hpow Htol Hdt Ptol Pdt [P1 L].
  destruct (do_step_total _ _ _ pow rk4_size system s1) as [s1' H1].
  destruct (do_step_total _ _ _ pow rk4_size system s2) as [s2' H2].
  exists s1', s2'. split; [exact H1|]. split; [exact H2|].
  rewrite (do_step_time_delta _ _ _ pow rk4_size _ _ _ H1).
  rewrite (do_step_time_delta _ _ _ pow rk4_size _ _ _ H2).
  rewrite <- Htol, <- Hdt.
  set (e1 := error_estimate system s1) in *.
  set (e2 := error_estimate system s2) in *.
  assert (F1 : floor_error e1 = e1).
  { unfold solver.floor_error. destruct (Req_dec_T e1 0); lra. }
  assert (F2 : floor_error e2 = e2).
  { unfold solver.floor_error. destruct (Req_dec_T e2 0); lra. }
  rewrite F1, F2. unfold solver.next_time_delta.
  apply Rmult_le_compat_l; [lra|].
  apply clamp_monotone, Hpow.
  assert (I : / (2 * e2) <= / (2 * e1)) by (apply Rinv_le_contravar; lra).
  assert (J : 0 < / (2 * e2)) by (apply Rinv_0_lt_compat; lra).
  unfold Rdiv. split; [nra|].
  apply Rmult_le_compat_l; lra.
Qed.

(** X8: if [std::pow(., 0.2)] is monotone on positive arguments, at
    least 1.5 at 8 and at most 0.3 at [2 ^ -9], then with a positive
    tolerance the clamp saturates with room to spare: when the floored
    error is at most [tol / 16] the step size stored is
    [0.9 * dt * 1.5], and when it is at least [256 * tol] the step size
    stored is [0.9 * dt * 0.3]. *)
Theorem step_size_saturation (system : System) (s : session) :
  (forall a b, 0 < a <= b -> pow a 0.2 <= pow b 0.2) ->
  1.5 <= pow 8 0.2 -> pow 0.001953125 0.2 <= 0.3 ->
  0 < _tollerance s ->
  exists s', do_step system s = Some s' /\
    (16 * floor_error (error_estimate system s) <= _tollerance s ->
     current_time_step s' = 0.9 * current_time_step s * 1.5) /\
    (256 * _tollerance s <= floor_error (error_estimate system s) ->
     current_time_step s' = 0.9 * current_time_step s * 0.3).
Proof.
  unfold solver.current_time_step.
  intros Hmono Hhi Hlo Ptol.
  destruct (do_step_total _ _ _ pow rk4_size system s) as [s' H].
  exists s'. split; [exact H|].
  rewrite (do_step_time_delta _ _ _ pow rk4_size _ _ _ H).
  pose proof (floor_error_pos _ (error_estimate_nonneg _ _ rk4_do_step system s))
    as Pe.
  set (e := floor_error (error_estimate system s)) in *.
  set (x := _tollerance s / (2 * e)).
  assert (X : x * (2 * e) = _tollerance s) by (unfold x; field; lra).
  assert (Px : 0 < x) by (unfold x; apply Rdiv_lt_0_compat; lra).
  unfold solver.next_time_delta. fold x.
  split; intros Hthr; f_equal.
  - assert (L : 8 <= x).
    { destruct (Rle_lt_dec 8 x) as [L|L]; [exact L | exfalso; nra]. }
    pose proof (Hmono 8 x ltac:(lra)) as P.
    unfold std_min, std_max.
    destruct (Rlt_dec (pow x 0.2) 0.3); [lra|].
    destruct (Rlt_dec 1.5 (pow x 0.2)); lra.
  - assert (L : x <= 0.001953125).
    { destruct (Rle_lt_dec x 0.001953125) as [L|L]; [exact L | exfalso; nra]. }
    pose proof (Hmono x 0.001953125 ltac:(lra)) as P.
    unfold std_min, std_max.
    destruct (Rlt_dec (pow x 0.2) 0.3).
    + destruct (Rlt_dec 1.5 0.3); lra.
    + destruct (Rlt_dec 1.5 (pow x 0.2)); lra.
Qed.

End adaptive_behaviour.

(** ** The trapezoidal stepper beyond the update formula *)


Lemma trapezoidal_estimate_zero_dt (x f1 f2 : State) :
  (length x <= length f1)%nat -> (length x <= length f2)%nat ->
  numint.trapezoidal_estimate x f1 f2 0 = x.
Proof.
  revert f1 f2; induction x as [|xi x IH]; intros f1 f2 H1 H2; [reflexivity|].
  destruct f1 as [|a f1]; simpl in H1; [lia|].
  destruct f2 as [|b f2]; simpl in H2; [lia|].
  cbn [numint.trapezoidal_estimate].
  rewrite IH by lia. f_equal. lra.
Qed.

Lemma resize_nth (n : nat) (v : State) (i : nat) :
  (i < n)%nat -> nth i (numint.resize n v) 0 = nth i v 0.
Proof.
  intros Hi. unfold numint.resize.
  destruct (Nat.lt_ge_cases i (length v)) as [L|L].
  - rewrite app_nth1 by (rewrite length_firstn; lia).
    rewrite nth_firstn.
    destruct (Nat.ltb_spec i n); [reflexivity | lia].
  - rewrite app_nth2 by (rewrite length_firstn; lia).
    rewrite nth_repeat. symmetry. apply nth_overflow. lia.
Qed.

Lemma incr_ulong_range (n : Z) :
  (0 <= numint.incr_ulong n <= numint.ULONG_MAX)%Z.
Proof.
  unfold numint.incr_ulong, numint.ULONG_MAX.
  pose proof (Z.mod_pos_bound (n + 1) (2 ^ 64 - 1 + 1)). lia.
Qed.

Section trapezoidal_behaviour.

Variable system : State -> State -> Time -> State.

Local Abbreviation do_step := (numint.do_step system).
Local Abbreviation do_steps := (numint.do_steps system).




(** X12: a call with step duration zero on buffers that cover the state
    leaves the state vector as it is; it still evaluates the system and
    counts as a step. *)
Theorem zero_duration_keeps_state (st : numint.stepper_trapezoidal)
    (x : State) (t : Time) :
  (length x <= length (system x (numint.m_dxdt_start st) t))%nat ->
  (length x <= length (system x (numint.m_dxdt_end st) (t + 0)%R))%nat ->
  exists st', do_step st x t 0 = Some (st', x) /\
    numint.steps st' = numint.incr_ulong (numint.steps st) /\
    numint.m_dxdt_start st' = system x (numint.m_dxdt_start st) t.
Proof.
  intros H1 H2.
  eexists. split.
  - rewrite do_step_eq_trapezoidal by assumption.
    rewrite trapezoidal_estimate_zero_dt by assumption. reflexivity.
  - split; reflexivity.
Qed.

(** Buffers of the length of the state, with a system that does not
    resize them, stay that way over any sequence of calls. *)
Lemma do_steps_spec (calls : list (Time * Time)) :
  (forall y dxdt u, length (system y dxdt u) = length dxdt) ->
  forall (st : numint.stepper_trapezoidal) (x : State),
  length (numint.m_dxdt_start st) = length x ->
  length (numint.m_dxdt_end st) = length x ->
  (0 <= numint.steps st <= numint.ULONG_MAX)%Z ->
  exists st' x', do_steps st x calls = Some (st', x') /\
    length x' = length x /\
    numint.steps st'
    = ((numint.steps st + Z.of_nat (length calls))
       mod (numint.ULONG_MAX + 1))%Z.
Proof.
  intros Hsys.
  induction calls as [|[t dt] calls IH]; intros st x Hs He Hn.
  - exists st, x. split; [reflexivity|]. split; [reflexivity|].
    cbn [length Z.of_nat]. rewrite Z.add_0_r, Z.mod_small; [reflexivity|].
    unfold numint.ULONG_MAX in *. lia.
  - cbn [numint.do_steps].
    rewrite do_step_eq_trapezoidal by (rewrite Hsys; lia).
    cbn [obind fst snd].
    edestruct IH as (st' & x' & Hrun & Hlen & Hsteps);
      [| | | exists st', x'; split; [exact Hrun|]].
    + cbn [numint.m_dxdt_start].
      rewrite trapezoidal_estimate_length by (rewrite Hsys; lia).
      rewrite Hsys. exact Hs.
    + cbn [numint.m_dxdt_end].
      rewrite trapezoidal_estimate_length by (rewrite Hsys; lia).
      rewrite Hsys. exact He.
    + apply incr_ulong_range.
    + split.
      * rewrite Hlen. apply trapezoidal_estimate_length; rewrite Hsys; lia.
      * rewrite Hsteps. unfold numint.steps, numint.incr_ulong.
        cbn [numint.m_steps length].
        rewrite Z.add_mod_idemp_l by (unfold numint.ULONG_MAX; lia).
        f_equal. lia.
Qed.

(** X14: once [adjust_size] has sized the buffers of a resizable
    container for [x], any sequence of [do_step] calls on [x] is
    defined when the system fills its output buffer without resizing
    it; the state vector keeps its length and [steps()] has advanced by
    the number of calls, modulo [ULONG_MAX + 1]. *)
Theorem steps_after_adjust_size (st : numint.stepper_trapezoidal)
    (x : State) (calls : list (Time * Time)) :
  (forall y dxdt u, length (system y dxdt u) = length dxdt) ->
  (0 <= numint.steps st <= numint.ULONG_MAX)%Z ->
  exists st' x',
    do_steps (numint.adjust_size true st x) x calls = Some (st', x') /\
    length x' = length x /\
    numint.steps st'
    = ((numint.steps st + Z.of_nat (length calls))
       mod (numint.ULONG_MAX + 1))%Z.
Proof.
  intros Hsys Hn.
  apply (do_steps_spec calls Hsys (numint.adjust_size true st x) x).
  - apply resize_length.
  - apply resize_length.
  - exact Hn.
Qed.

End trapezoidal_behaviour.

(** X15: [adjust_size] never touches the step counter; on a container
    that cannot be resized it changes nothing; on a resizable one it
    gives both buffers the length of the reference vector, keeps every
    entry below that length (reading 0 where the old buffer was
    shorter), and doing it twice is the same as doing it once. *)
Theorem adjust_size_effect (has_resize : bool)
    (st : numint.stepper_trapezoidal) (reference : State) :
  numint.steps (numint.adjust_size has_resize st reference) = numint.steps st /\
  numint.adjust_size false st reference = st /\
  length (numint.m_dxdt_start (numint.adjust_size true st reference))
  = length reference /\
  length (numint.m_dxdt_end (numint.adjust_size true st reference))
  = length reference /\
  (forall i, (i < length reference)%nat ->
     nth i (numint.m_dxdt_start (numint.adjust_size true st reference)) 0
     = nth i (numint.m_dxdt_start st) 0 /\
     nth i (numint.m_dxdt_end (numint.adjust_size true st reference)) 0
     = nth i (numint.m_dxdt_end st) 0) /\
  numint.adjust_size true (numint.adjust_size true st reference) reference
  = numint.adjust_size true st reference.
Proof.
  split; [destruct has_resize; reflexivity|].
  split; [reflexivity|].
  cbn [numint.adjust_size numint.m_dxdt_start numint.m_dxdt_end numint.m_steps].
  split; [apply resize_length|].
  split; [apply resize_length|].
  split; [intros i Hi; split; apply resize_nth, Hi|].
  assert (I : forall v : State,
             numint.resize (length reference)
               (numint.resize (length reference) v)
             = numint.resize (length reference) v).
  { intros v. unfold numint.resize at 1.
    rewrite resize_length, Nat.sub_diag, firstn_all2
      by (rewrite resize_length; lia).
    apply app_nil_r. }
  rewrite !I. reflexivity.
Qed.

(** ** The decimating observers *)

Section observer_behaviour.

Variable DECIMATION : Z.

Local Abbreviation observe := (detail.observe DECIMATION).
Local Abbreviation observe_many := (detail.observe_many DECIMATION).
Local Abbreviation feed := (detail.ObserverPrint_feed DECIMATION).
Local Abbreviation cnt := detail.decimation_cnt.

(** One call with a counter below a positive [DECIMATION]. *)
Lemma observe_step (o : detail.ObserverDecimate) :
  (0 < DECIMATION <= detail.SIZE_MAX)%Z -> (0 <= cnt o < DECIMATION)%Z ->
  observe o
  = ((cnt o + 1 =? DECIMATION)%Z,
     {| detail.decimation_cnt := ((cnt o + 1) mod DECIMATION)%Z |}).
Proof.
  intros HD Hc. unfold detail.observe.
  destruct (Z.eqb_spec DECIMATION 0) as [E|_]; [lia|].
  rewrite (Z.mod_small (cnt o + 1)) by (unfold detail.SIZE_MAX in *; lia).
  destruct (Z.eqb_spec (cnt o + 1) DECIMATION) as [E|N].
  - rewrite E, Z.mod_same by lia. reflexivity.
  - rewrite Z.mod_small by lia. reflexivity.
Qed.

Lemma observe_many_spec (k : nat) :
  (0 < DECIMATION <= detail.SIZE_MAX)%Z ->
  forall o : detail.ObserverDecimate, (0 <= cnt o < DECIMATION)%Z ->
  length (fst (observe_many k o)) = k /\
  (forall i, (i < k)%nat ->
     nth i (fst (observe_many k o)) false
     = ((cnt o + Z.of_nat (i + 1)) mod DECIMATION =? 0)%Z) /\
  cnt (snd (observe_many k o)) = ((cnt o + Z.of_nat k) mod DECIMATION)%Z.
Proof.
  intros HD. induction k as [|k IH]; intros o Hc.
  - cbn [detail.observe_many fst snd length Z.of_nat].
    split; [reflexivity|]. split; [intros i Hi; lia|].
    rewrite Z.add_0_r, Z.mod_small by lia. reflexivity.
  - cbn [detail.observe_many]. rewrite (observe_step o HD Hc).
    set (o1 := {| detail.decimation_cnt := ((cnt o + 1) mod DECIMATION)%Z |}).
    assert (H1 : (0 <= cnt o1 < DECIMATION)%Z)
      by (apply Z.mod_pos_bound; lia).
    destruct (IH o1 H1) as (Hlen & Hnth & Hcnt).
    destruct (observe_many k o1) as [bs o2]. cbn [fst snd] in *.
    split; [simpl; congruence|].
    split.
    + intros [|i] Hi; cbn [nth].
      * change (Z.of_nat (0 + 1)) with 1%Z.
        destruct (Z.eqb_spec (cnt o + 1) DECIMATION) as [E|N].
        -- rewrite E, Z.mod_same by lia. reflexivity.
        -- rewrite Z.mod_small by lia.
           destruct (Z.eqb_spec (cnt o + 1) 0); [lia | reflexivity].
      * rewrite Hnth by lia. unfold o1. cbn [detail.decimation_cnt].
        rewrite Z.add_mod_idemp_l by lia.
        do 2 f_equal. lia.
    + rewrite Hcnt. unfold o1. cbn [detail.decimation_cnt].
      rewrite Z.add_mod_idemp_l by lia. f_equal. lia.
Qed.

(** X16: with a positive [DECIMATION], a freshly constructed observer
    answers [true] to exactly the calls whose number (counted from 1) is
    a multiple of [DECIMATION], and its counter after [k] calls is
    [k mod DECIMATION]. *)
Theorem observe_every_nth_call (k : nat) :
  (0 < DECIMATION <= detail.SIZE_MAX)%Z ->
  length (fst (observe_many k detail.construct)) = k /\
  (forall i, (i < k)%nat ->
     nth i (fst (observe_many k detail.construct)) false
     = (Z.of_nat (i + 1) mod DECIMATION =? 0)%Z) /\
  cnt (snd (observe_many k detail.construct))
  = (Z.of_nat k mod DECIMATION)%Z.
Proof.
  intros HD.
  apply (observe_many_spec k HD detail.construct).
  cbn. lia.
Qed.

(** X17: with [DECIMATION] 0 or 1 a freshly constructed observer answers
    [true] to every call and is after each call as it was constructed. *)
Theorem observe_without_decimation (k : nat) :
  (DECIMATION = 0 \/ DECIMATION = 1)%Z ->
  observe_many k detail.construct = (repeat true k, detail.construct).
Proof.
  intros HD.
  assert (S1 : observe detail.construct = (true, detail.construct))
    by (destruct HD as [-> | ->]; reflexivity).
  induction k as [|k IH]; [reflexivity|].
  cbn [detail.observe_many repeat]. rewrite S1, IH. reflexivity.
Qed.

Lemma feed_spec (d : Time * State) :
  (0 < DECIMATION <= detail.SIZE_MAX)%Z ->
  forall (samples : list (Time * State)) (o : detail.ObserverDecimate)
         (out : detail.ostream),
  (0 <= cnt o < DECIMATION)%Z ->
  exists picks,
    feed o out samples
    = ({| detail.decimation_cnt :=
            ((cnt o + Z.of_nat (length samples)) mod DECIMATION)%Z |},
       out ++ picks) /\
    Z.of_nat (length picks)
    = ((cnt o + Z.of_nat (length samples)) / DECIMATION)%Z /\
    forall j, (j < length picks)%nat ->
      nth j picks d
      = nth (Z.to_nat ((Z.of_nat j + 1) * DECIMATION - 1 - cnt o)) samples d.
Proof.
  intros HD. induction samples as [|[t x] l IH]; intros o out Hc.
  - exists []. cbn [detail.ObserverPrint_feed length Z.of_nat].
    rewrite Z.add_0_r, Z.mod_small, Z.div_small, app_nil_r by lia.
    split; [destruct o; reflexivity|].
    split; [reflexivity | intros j Hj; simpl in Hj; lia].
  - cbn [detail.ObserverPrint_feed]. unfold detail.ObserverPrint_call.
    rewrite (observe_step o HD Hc).
    destruct (Z.eqb_spec (cnt o + 1) DECIMATION) as [E|N].
    + rewrite E, Z.mod_same by lia.
      destruct (IH {| detail.decimation_cnt := 0%Z |} (out ++ [(t, x)]))
        as (picks & Hfeed & Hlen & Hnth); [cbn; lia|].
      cbn [detail.decimation_cnt] in *. rewrite Z.add_0_l in Hlen.
      exists ((t, x) :: picks).
      rewrite Hfeed, <- app_assoc. cbn [app length].
      replace (cnt o + Z.of_nat (S (length l)))%Z
        with (Z.of_nat (length l) + 1 * DECIMATION)%Z by lia.
      rewrite Z.mod_add, Z.div_add by lia.
      split; [reflexivity|].
      split; [lia|].
      intros [|j] Hj.
      * replace ((Z.of_nat 0 + 1) * DECIMATION - 1 - cnt o)%Z with 0%Z by lia.
        reflexivity.
      * cbn [nth]. rewrite Hnth by lia.
        assert (P : (0 <= Z.of_nat j * DECIMATION)%Z) by nia.
        replace (Z.to_nat ((Z.of_nat (S j) + 1) * DECIMATION - 1 - cnt o))
          with (S (Z.to_nat ((Z.of_nat j + 1) * DECIMATION - 1 - 0)))
          by lia.
        reflexivity.
    + rewrite (Z.mod_small (cnt o + 1)) by lia.
      destruct (IH {| detail.decimation_cnt := (cnt o + 1)%Z |} out)
        as (picks & Hfeed & Hlen & Hnth); [cbn; lia|].
      cbn [detail.decimation_cnt] in *.
      exists picks. rewrite Hfeed. cbn [length].
      replace (cnt o + Z.of_nat (S (length l)))%Z
        with (cnt o + 1 + Z.of_nat (length l))%Z by lia.
      split; [reflexivity|].
      split; [exact Hlen|].
      intros j Hj. rewrite Hnth by exact Hj.
      assert (P : (0 <= Z.of_nat j * DECIMATION)%Z) by nia.
      replace (Z.to_nat ((Z.of_nat j + 1) * DECIMATION - 1 - cnt o))
        with (S (Z.to_nat ((Z.of_nat j + 1) * DECIMATION - 1 - (cnt o + 1))))
        by lia.
      reflexivity.
Qed.

(** X18: with a positive [DECIMATION] a freshly constructed printing
    observer that is shown [n] samples appends to the stream one record
    for every [DECIMATION]-th sample, in order: [n / DECIMATION]
    records, the [j]-th of them (from 0) being the sample of number
    [(j + 1) * DECIMATION] (from 1); what the stream held before is
    kept. *)
Theorem print_every_nth_sample (d : Time * State)
    (samples : list (Time * State)) (out : detail.ostream) :
  (0 < DECIMATION <= detail.SIZE_MAX)%Z ->
  exists picks,
    snd (feed detail.construct out samples) = out ++ picks /\
    Z.of_nat (length picks) = (Z.of_nat (length samples) / DECIMATION)%Z /\
    forall j, (j < length picks)%nat ->
      nth j picks d
      = nth (Z.to_nat ((Z.of_nat j + 1) * DECIMATION - 1)) samples d.
Proof.
  intros HD.
  destruct (feed_spec d HD samples detail.construct out)
    as (picks & Hfeed & Hlen & Hnth); [cbn; lia|].
  cbn [detail.construct detail.decimation_cnt] in *.
  exists picks. rewrite Hfeed. cbn [snd].
  split; [reflexivity|].
  split; [rewrite Hlen; f_equal; lia|].
  intros j Hj. rewrite Hnth by exact Hj. do 2 f_equal. lia.
Qed.

(** X19: with [DECIMATION] 0 (the default of the printing observer) or 1
    a freshly constructed printing observer appends every sample to the
    stream, in order. *)
Theorem print_without_decimation (samples : list (Time * State))
    (out : detail.ostream) :
  (DECIMATION = 0 \/ DECIMATION = 1)%Z ->
  feed detail.construct out samples = (detail.construct, out ++ samples).
Proof.
  intros HD.
  assert (S1 : observe detail.construct = (true, detail.construct))
    by (destruct HD as [-> | ->]; reflexivity).
  revert out; induction samples as [|[t x] l IH]; intros out.
  - cbn. rewrite app_nil_r. reflexivity.
  - cbn [detail.ObserverPrint_feed]. unfold detail.ObserverPrint_call.
    rewrite S1, IH, <- app_assoc. reflexivity.
Qed.

End observer_behaviour.

(** ** The further properties at work *)

Lemma Decay_system_in_place_size (lambda : R) (x dxdt : State) (t : Time) :
  length (Decay.system_in_place lambda x dxdt t) = length dxdt.
Proof.
  revert dxdt; induction x as [|xi x IH]; intros [|d dxdt]; simpl;
    try reflexivity.
  rewrite IH. reflexivity.
Qed.

Lemma Decay_rest_candidates :
  solver.candidate_B Decay.do_step 0 (Decay.session 1e-4 [1; 2] 0 1e-3)
  = solver.candidate_A Decay.do_step 0 (Decay.session 1e-4 [1; 2] 0 1e-3).
Proof.
  cbv [solver.candidate_A solver.candidate_B solver.first_half Decay.session
       solver.initialize solver.construct Decay.do_step Decay.rk4_factor
       solver._state solver._time solver._time_delta solver._stepper1
       solver._stepper2 fst snd map].
  repeat (f_equal; try lra).
Qed.

Lemma Rpower_fifth_monotone (a b : R) :
  0 < a <= b -> Rpower a 0.2 <= Rpower b 0.2.
Proof. intros H. apply Rle_Rpower_l; [lra | exact H]. Qed.

(** The contract of the integrator matters: with one that lengthens the
    vector at every call the half-step candidate outgrows the full-step
    one and [do_step] reads past the end. *)
Example do_step_undefined_example :
  solver.do_step Decay.growing_step Rpower tt
    (solver.initialize (solver.construct tt 1e-4) [1] 0 1e-3) = None.
Proof. reflexivity. Qed.

Lemma error_zero_iff_candidates_agree_witness :
  (forall lambda st x t dt,
     length (snd (Decay.do_step lambda st x t dt)) = length x) /\
  solver.truncation_error
    (solver.candidate_B Decay.do_step 0 (Decay.session 1e-4 [1; 2] 0 1e-3))
    (solver.candidate_A Decay.do_step 0 (Decay.session 1e-4 [1; 2] 0 1e-3))
  = Some 0.
Proof.
  split; [exact Decay_do_step_size|].
  apply (proj1 (error_zero_iff_candidates_agree R nat Decay.do_step
                  Decay_do_step_size 0 (Decay.session 1e-4 [1; 2] 0 1e-3))).
  exact Decay_rest_candidates.
Defined.

Lemma zero_step_size_is_absorbing_witness :
  (forall lambda st x t dt,
     length (snd (Decay.do_step lambda st x t dt)) = length x) /\
  0 < 1e-4 /\
  solver.current_time_step (Decay.session 1e-4 [1] 5 0) = 0 /\
  exists dts s',
    solver.run Decay.do_step Rpower 1 4 (Decay.session 1e-4 [1] 5 0)
    = Some (dts, s') /\
    solver.current_time_step s' = 0 /\ solver.current_time s' = 5.
Proof.
  assert (T : 0 < 1e-4) by lra.
  split; [exact Decay_do_step_size|].
  split; [exact T|]. split; [reflexivity|].
  exact (zero_step_size_is_absorbing R nat Decay.do_step Rpower
           Decay_do_step_size 1 (Decay.session 1e-4 [1] 5 0) 4 T eq_refl).
Defined.

Lemma time_moves_with_step_sign_witness :
  (forall lambda st x t dt,
     length (snd (Decay.do_step lambda st x t dt)) = length x) /\
  0 < 1e-4 /\ -1e-3 < 0 /\
  exists dts s',
    solver.run Decay.do_step Rpower 1 2 (Decay.session 1e-4 [1] 0 (-1e-3))
    = Some (dts, s') /\
    solver.current_time s' <= 0 /\
    solver.current_time_step s' <= 0.
Proof.
  split; [exact Decay_do_step_size|].
  assert (T : 0 < 1e-4) by lra.
  assert (N : -1e-3 < 0) by lra.
  split; [exact T|]. split; [exact N|].
  destruct (time_moves_with_step_sign R nat Decay.do_step Rpower
              Decay_do_step_size 1 (Decay.session 1e-4 [1] 0 (-1e-3)) 2 T)
    as (dts & s' & Hrun & _ & Hneg).
  exists dts, s'. split; [exact Hrun | exact (Hneg N)].
Defined.

Lemma state_length_is_invariant_witness :
  (forall lambda st x t dt,
     length (snd (Decay.do_step lambda st x t dt)) = length x) /\
  exists dts s',
    solver.run Decay.do_step Rpower 1 2 (Decay.session 1e-4 [1; 2] 0 1e-3)
    = Some (dts, s') /\
    length (solver.current_state s') = 2%nat.
Proof.
  split; [exact Decay_do_step_size|].
  exact (state_length_is_invariant R nat Decay.do_step Rpower
           Decay_do_step_size 1 (Decay.session 1e-4 [1; 2] 0 1e-3) 2).
Defined.

(** On [dx/dt = - x] with [dt = 1] the two candidates for the state [[x]]
    differ by [x * (rk4_factor 1 - rk4_factor 0.5 ^ 2)], about [0.0068 * x]. *)
Lemma Decay_unit_step_error (x : R) :
  0 < x ->
  solver.error_estimate Decay.do_step 1 (Decay.session 1e-4 [x] 0 1)
  = x * (Decay.rk4_factor 1 - Decay.rk4_factor 0.5 * Decay.rk4_factor 0.5).
Proof.
  intros Hx.
  unfold solver.error_estimate.
  cbv [solver.candidate_A solver.candidate_B solver.first_half Decay.session
       solver.initialize solver.construct Decay.do_step
       solver._state solver._time solver._time_delta solver._stepper1
       solver._stepper2 fst snd map].
  unfold inf_norm, vec_sub. cbn [combine map fold_right fst snd].
  rewrite Rmax_left by apply Rabs_pos.
  replace (1 * (1 * 0.5)) with 0.5 by lra.
  replace (1 * 1) with 1 by lra.
  assert (C : 0 < Decay.rk4_factor 1
                  - Decay.rk4_factor 0.5 * Decay.rk4_factor 0.5)
    by (unfold Decay.rk4_factor; lra).
  rewrite Rabs_left by nra. ring.
Qed.

Lemma larger_error_smaller_step_witness :
  (forall lambda st x t dt,
     length (snd (Decay.do_step lambda st x t dt)) = length x) /\
  (forall a b, 0 < a <= b -> Rpower a 0.2 <= Rpower b 0.2) /\
  0 < solver.error_estimate Decay.do_step 1 (Decay.session 1e-4 [1] 0 1)
  <= solver.error_estimate Decay.do_step 1 (Decay.session 1e-4 [2] 0 1) /\
  exists s1' s2',
    Decay.step 1 (Decay.session 1e-4 [1] 0 1) = Some s1' /\
    Decay.step 1 (Decay.session 1e-4 [2] 0 1) = Some s2' /\
    solver.current_time_step s2' <= solver.current_time_step s1'.
Proof.
  assert (E : 0 < solver.error_estimate Decay.do_step 1
                    (Decay.session 1e-4 [1] 0 1)
              <= solver.error_estimate Decay.do_step 1
                   (Decay.session 1e-4 [2] 0 1)).
  { rewrite !Decay_unit_step_error by lra.
    unfold Decay.rk4_factor. lra. }
  assert (T : 0 < 1e-4) by lra.
  assert (D : 0 <= 1) by lra.
  split; [exact Decay_do_step_size|].
  split; [exact Rpower_fifth_monotone|].
  split; [exact E|].
  exact (larger_error_smaller_step R nat Decay.do_step Rpower Decay_do_step_size
           1 (Decay.session 1e-4 [1] 0 1) (Decay.session 1e-4 [2] 0 1)
           Rpower_fifth_monotone eq_refl eq_refl T D E).
Defined.

Lemma Rpower_fifth_at_8 : 1.5 <= Rpower 8 0.2.
Proof.
  rewrite <- (Rpower_fifth_root 1.5) at 1 by lra.
  apply Rpower_fifth_monotone. split; [apply pow_lt; lra | simpl; lra].
Qed.

Lemma Rpower_fifth_at_512th : Rpower 0.001953125 0.2 <= 0.3.
Proof.
  rewrite <- (Rpower_fifth_root 0.3) at 1 by lra.
  apply Rpower_fifth_monotone. split; [lra | simpl; lra].
Qed.

Lemma step_size_saturation_witness :
  (forall lambda st x t dt,
     length (snd (Decay.do_step lambda st x t dt)) = length x) /\
  (forall a b, 0 < a <= b -> Rpower a 0.2 <= Rpower b 0.2) /\
  1.5 <= Rpower 8 0.2 /\ Rpower 0.001953125 0.2 <= 0.3 /\
  0 < 1e-4 /\
  16
  * solver.floor_error
      (solver.error_estimate Decay.do_step 0 (Decay.session 1e-4 [1; 2] 0 1e-3))
  <= 1e-4 /\
  exists s', Decay.step 0 (Decay.session 1e-4 [1; 2] 0 1e-3) = Some s' /\
    solver.current_time_step s' = 0.9 * 1e-3 * 1.5.
Proof.
  assert (T : 0 < 1e-4) by lra.
  assert (F : 16
              * solver.floor_error
                  (solver.error_estimate Decay.do_step 0
                     (Decay.session 1e-4 [1; 2] 0 1e-3)) <= 1e-4).
  { unfold solver.error_estimate.
    rewrite Decay_rest_candidates, vec_sub_diag.
    unfold solver.floor_error. destruct (Req_dec_T 0 0); lra. }
  split; [exact Decay_do_step_size|].
  split; [exact Rpower_fifth_monotone|].
  split; [exact Rpower_fifth_at_8|]. split; [exact Rpower_fifth_at_512th|].
  split; [exact T|]. split; [exact F|].
  destruct (step_size_saturation R nat Decay.do_step Rpower Decay_do_step_size
              0 (Decay.session 1e-4 [1; 2] 0 1e-3) Rpower_fifth_monotone
              Rpower_fifth_at_8 Rpower_fifth_at_512th T)
    as (s' & Hs & Hup & _).
  exists s'. split; [exact Hs | exact (Hup F)].
Defined.



Lemma zero_duration_keeps_state_witness :
  le (length [1; 2]) (length (Decay.system 1 [1; 2] [] 0)) /\
  le (length [1; 2]) (length (Decay.system 1 [1; 2] [] (0 + 0))) /\
  exists st',
    numint.do_step (Decay.system 1) numint.construct [1; 2] 0 0
    = Some (st', [1; 2]) /\
    numint.steps st' = 1%Z.
Proof.
  assert (H1 : le (length [1; 2]) (length (Decay.system 1 [1; 2] [] 0)))
    by (simpl; lia).
  assert (H2 : le (length [1; 2]) (length (Decay.system 1 [1; 2] [] (0 + 0))))
    by (simpl; lia).
  split; [exact H1|]. split; [exact H2|].
  destruct (zero_duration_keeps_state (Decay.system 1) numint.construct
              [1; 2] 0 H1 H2) as (st' & Hs & Hn & _).
  exists st'. split; [exact Hs | exact Hn].
Defined.

Lemma steps_after_adjust_size_witness :
  (forall y dxdt u,
     length (Decay.system_in_place 1 y dxdt u) = length dxdt) /\
  (0 <= numint.steps numint.construct <= numint.ULONG_MAX)%Z /\
  exists st' x',
    numint.do_steps (Decay.system_in_place 1)
      (numint.adjust_size true numint.construct [1; 2]) [1; 2]
      [(0, 0.5); (0.5, 0.5); (1, 0.25)] = Some (st', x') /\
    length x' = 2%nat /\
    numint.steps st' = 3%Z.
Proof.
  assert (N : (0 <= numint.steps numint.construct <= numint.ULONG_MAX)%Z)
    by (cbv; split; congruence).
  split; [exact (Decay_system_in_place_size 1)|].
  split; [exact N|].
  exact (steps_after_adjust_size (Decay.system_in_place 1) numint.construct
           [1; 2] [(0, 0.5); (0.5, 0.5); (1, 0.25)]
           (Decay_system_in_place_size 1) N).
Defined.

Lemma observe_every_nth_call_witness :
  (0 < 3 <= detail.SIZE_MAX)%Z /\
  fst (detail.observe_many 3 7 detail.construct)
  = [false; false; true; false; false; true; false] /\
  detail.decimation_cnt (snd (detail.observe_many 3 7 detail.construct)) = 1%Z.
Proof.
  assert (H : (0 < 3 <= detail.SIZE_MAX)%Z) by (cbv; split; congruence).
  split; [exact H|].
  split; [reflexivity|].
  exact (proj2 (proj2 (observe_every_nth_call 3 7 H))).
Defined.

Lemma observe_without_decimation_witness :
  (0 = 0 \/ 0 = 1)%Z /\
  detail.observe_many 0 4 detail.construct
  = ([true; true; true; true], detail.construct).
Proof.
  split; [left; reflexivity|].
  exact (observe_without_decimation 0 4 (or_introl eq_refl)).
Defined.

Lemma print_every_nth_sample_witness :
  (0 < 2 <= detail.SIZE_MAX)%Z /\
  exists picks,
    snd (detail.ObserverPrint_feed 2 detail.construct []
           [(0, [1]); (0.1, [2]); (0.2, [3]); (0.3, [4]); (0.4, [5])])
    = [] ++ picks /\
    length picks = 2%nat /\
    nth 1 picks (0, []) = (0.3, [4]).
Proof.
  assert (H : (0 < 2 <= detail.SIZE_MAX)%Z) by (cbv; split; congruence).
  split; [exact H|].
  destruct (print_every_nth_sample 2 (0, [])
              [(0, [1]); (0.1, [2]); (0.2, [3]); (0.3, [4]); (0.4, [5])] [] H)
    as (picks & Hout & Hlen & Hnth).
  assert (L : length picks = 2%nat).
  { apply Nat2Z.inj. rewrite Hlen. reflexivity. }
  exists picks. split; [exact Hout|]. split; [exact L|].
  rewrite (Hnth 1%nat) by lia. reflexivity.
Defined.

Lemma print_without_decimation_witness :
  (0 = 0 \/ 0 = 1)%Z /\
  detail.ObserverPrint_feed 0 detail.construct [] [(0, [1]); (0.1, [2])]
  = (detail.construct, [] ++ [(0, [1]); (0.1, [2])]).
Proof.
  split; [left; reflexivity|].
  exact (print_without_decimation 0 [(0, [1]); (0.1, [2])] []
           (or_introl eq_refl)).
Defined.

(** * The controller on binary64 *)

Module binary64_facts.

Import Floats.
Local Open Scope float_scope.
#[local] Set Warnings "-inexact-float".

(** ** Signs through the rounding of the specification *)

Local Abbreviation sign_clear := binary64.sign_clear.
Local Abbreviation nonneg := binary64.nonneg.
Local Abbreviation finite_positive := binary64.finite_positive.

Lemma shr_1_nonneg (mrs : shr_record) :
  (0 <= shr_m mrs)%Z -> (0 <= shr_m (shr_1 mrs))%Z.
Proof.
  destruct mrs as [m r s]. cbn [shr_m].
  destruct m as [|[p|p|]|p]; cbn; lia.
Qed.

Lemma iter_shr_1_nonneg (p : positive) :
  forall mrs, (0 <= shr_m mrs)%Z -> (0 <= shr_m (iter_pos shr_1 p mrs))%Z.
Proof.
  induction p as [p IH|p IH|]; intros mrs H; cbn [iter_pos].
  - apply IH, IH, shr_1_nonneg, H.
  - apply IH, IH, H.
  - apply shr_1_nonneg, H.
Qed.

Lemma shr_fexp_nonneg (m e : Z) (l : location) :
  (0 <= m)%Z -> (0 <= shr_m (fst (shr_fexp prec emax m e l)))%Z.
Proof.
  intros H. unfold shr_fexp, shr.
  assert (R : (0 <= shr_m (shr_record_of_loc m l))%Z)
    by (destruct l as [|[| |]]; exact H).
  destruct (fexp prec emax (Zdigits2 m + e) - e)%Z; cbn [fst];
    [exact R | apply iter_shr_1_nonneg, R | exact R].
Qed.

Lemma round_nearest_even_nonneg (m : Z) (l : location) :
  (0 <= m)%Z -> (0 <= round_nearest_even m l)%Z.
Proof.
  intros H. destruct l as [|[| |]]; cbn [round_nearest_even]; try lia.
  destruct (Z.even m); lia.
Qed.

Lemma binary_round_aux_sign_clear (mx ex : Z) (lx : location) :
  (0 <= mx)%Z -> sign_clear (binary_round_aux prec emax false mx ex lx).
Proof.
  intros H. unfold binary_round_aux.
  pose proof (shr_fexp_nonneg mx ex lx H) as H1.
  destruct (shr_fexp prec emax mx ex lx) as [mrs' e']. cbn [fst] in H1.
  pose proof (shr_fexp_nonneg _ e' loc_Exact
                (round_nearest_even_nonneg _ (loc_of_shr_record mrs') H1)) as H2.
  destruct (shr_fexp prec emax
              (round_nearest_even (shr_m mrs') (loc_of_shr_record mrs')) e'
              loc_Exact) as [mrs'' e''].
  cbn [fst] in H2.
  destruct (shr_m mrs'') as [|m|m]; [exact I | | lia].
  destruct (e'' <=? emax - prec)%Z; exact I.
Qed.

Lemma SFmul_sign_clear_r (x : spec_float) (my : positive) (ey : Z) :
  sign_clear x -> sign_clear (SF64mul x (S754_finite false my ey)).
Proof.
  destruct x as [[|]|[|]| |[|] mx ex]; cbn; try tauto.
  intros _. apply binary_round_aux_sign_clear. lia.
Qed.

Lemma SFmul_sign_clear_l (mx : positive) (ex : Z) (y : spec_float) :
  sign_clear y -> sign_clear (SF64mul (S754_finite false mx ex) y).
Proof.
  destruct y as [[|]|[|]| |[|] my ey]; cbn; try tauto.
  intros _. apply binary_round_aux_sign_clear. lia.
Qed.

Lemma SFdiv_sign_clear (mx : positive) (ex : Z) (y : spec_float) :
  sign_clear y -> sign_clear (SF64div (S754_finite false mx ex) y).
Proof.
  destruct y as [[|]|[|]| |[|] my ey]; cbn [sign_clear]; try tauto;
    try (intros _; exact I).
  intros _. unfold SF64div, SFdiv, SFdiv_core_binary. cbn [xorb].
  set (m' := match (ex - ey - _)%Z with Z0 => _ | Zpos _ => _ | Zneg _ => _ end).
  assert (P : (0 <= m')%Z).
  { unfold m'.
    destruct (ex - ey - _)%Z; try lia.
    apply Z.shiftl_nonneg. lia. }
  pose proof (Z.div_pos m' (Zpos my) P ltac:(lia)) as Q.
  unfold Z.div in Q.
  destruct (Z.div_eucl m' (Zpos my)) as [q r].
  apply binary_round_aux_sign_clear, Q.
Qed.

(** ** Signs and order of doubles *)

Lemma nonneg_leb (x : float) : nonneg x -> (0 <=? x) = true.
Proof.
  unfold nonneg. rewrite leb_spec.
  replace (Prim2SF 0) with (S754_zero false) by reflexivity.
  destruct (Prim2SF x) as [[|]|[|]| |[|] m e]; cbn; tauto.
Qed.

Lemma positive_nonneg (x : float) : (0 <? x) = true -> nonneg x.
Proof.
  unfold nonneg. rewrite ltb_spec.
  replace (Prim2SF 0) with (S754_zero false) by reflexivity.
  destruct (Prim2SF x) as [[|]|[|]| |[|] m e]; cbn; intros H;
    try discriminate; exact I.
Qed.

Lemma positive_finite (x : float) :
  (0 <? x) = true -> (x <? infinity) = true -> finite_positive x.
Proof.
  unfold finite_positive. rewrite !ltb_spec.
  replace (Prim2SF 0) with (S754_zero false) by reflexivity.
  replace (Prim2SF infinity) with (S754_infinity false) by reflexivity.
  destruct (Prim2SF x) as [[|]|[|]| |[|] m e]; cbn; intros H1 H2;
    try discriminate.
  exists m, e. reflexivity.
Qed.

Lemma finite_positive_nonneg (x : float) : finite_positive x -> nonneg x.
Proof. intros (m & e & E). unfold nonneg. rewrite E. exact I. Qed.

Lemma ltb_nonneg (a b : float) : nonneg a -> (a <? b) = true -> nonneg b.
Proof.
  unfold nonneg. rewrite ltb_spec.
  destruct (Prim2SF a) as [[|]|[|]| |[|] ma ea]; cbn [sign_clear]; try tauto;
    intros _;
    destruct (Prim2SF b) as [[|]|[|]| |[|] mb eb]; cbn; intros H;
    try discriminate; exact I.
Qed.

Lemma mul_nonneg_l (a y : float) :
  finite_positive a -> nonneg y -> nonneg (a * y).
Proof.
  intros (m & e & E) H. unfold nonneg in *. rewrite mul_spec, E.
  apply SFmul_sign_clear_l, H.
Qed.

Lemma mul_nonneg_r (x c : float) :
  nonneg x -> finite_positive c -> nonneg (x * c).
Proof.
  intros H (m & e & E). unfold nonneg in *. rewrite mul_spec, E.
  apply SFmul_sign_clear_r, H.
Qed.

Lemma div_nonneg (a y : float) :
  finite_positive a -> nonneg y -> nonneg (a / y).
Proof.
  intros (m & e & E) H. unfold nonneg in *. rewrite div_spec, E.
  apply SFdiv_sign_clear, H.
Qed.

Lemma SFcompare_finite_antisym (m1 : positive) (e1 : Z) (m2 : positive) (e2 : Z) :
  exists c,
    SFcompare (S754_finite false m1 e1) (S754_finite false m2 e2) = Some c /\
    SFcompare (S754_finite false m2 e2) (S754_finite false m1 e1)
    = Some (CompOpp c).
Proof.
  cbn [SFcompare]. eexists. split; [reflexivity|]. f_equal.
  rewrite (Z.compare_antisym e1 e2).
  destruct (e1 ?= e2)%Z; cbn [CompOpp]; try reflexivity.
  rewrite Pos.compare_cont_antisym. reflexivity.
Qed.

(** A value that is not a NaN, not below [lo] and not above [hi] lies
    between them. *)
Lemma SF_between (ml : positive) (el : Z) (mh : positive) (eh : Z)
    (x : spec_float) :
  SFeqb x x = true ->
  SFltb x (S754_finite false ml el) = false ->
  SFltb (S754_finite false mh eh) x = false ->
  (exists m e, x = S754_finite false m e) /\
  SFleb (S754_finite false ml el) x = true /\
  SFleb x (S754_finite false mh eh) = true.
Proof.
  destruct x as [[|]|[|]| |[|] m e]; intros N L U;
    try (cbn in *; discriminate).
  split; [exists m, e; reflexivity|].
  unfold SFltb, SFleb in *.
  destruct (SFcompare_finite_antisym m e ml el) as (c1 & A1 & B1).
  destruct (SFcompare_finite_antisym mh eh m e) as (c2 & A2 & B2).
  rewrite A1 in L. rewrite A2 in U. rewrite B1, B2.
  destruct c1, c2; cbn in *; try discriminate; split; reflexivity.
Qed.

Lemma clamp_between (p : float) :
  (p =? p) = true ->
  finite_positive (binary64.std_min (binary64.std_max p 0.3) 1.5) /\
  (0.3 <=? binary64.std_min (binary64.std_max p 0.3) 1.5) = true /\
  (binary64.std_min (binary64.std_max p 0.3) 1.5 <=? 1.5) = true.
Proof.
  intros N. unfold binary64.std_min, binary64.std_max, finite_positive.
  destruct (p <? 0.3) eqn:L.
  - replace (1.5 <? 0.3) with false by reflexivity.
    split; [eexists _, _; vm_compute; reflexivity|].
    split; reflexivity.
  - destruct (1.5 <? p) eqn:U.
    + split; [eexists _, _; vm_compute; reflexivity|].
      split; reflexivity.
    + rewrite eqb_spec in N. rewrite ltb_spec in L, U. rewrite !leb_spec.
      assert (E3 : exists m e, Prim2SF 0.3 = S754_finite false m e)
        by (eexists _, _; vm_compute; reflexivity).
      assert (E15 : exists m e, Prim2SF 1.5 = S754_finite false m e)
        by (eexists _, _; vm_compute; reflexivity).
      destruct E3 as (m3 & e3 & E3). destruct E15 as (m15 & e15 & E15).
      rewrite E3 in *. rewrite E15 in *.
      exact (SF_between m3 e3 m15 e15 (Prim2SF p) N L U).
Qed.

(** ** One call and many calls of the step operation *)

Section controller.

Variable System : Type.
Variable stepper_rk4 : Type.
Variable rk4_do_step :
  System -> stepper_rk4 -> binary64.State -> float -> float
  -> stepper_rk4 * binary64.State.
Variable pow : float -> float -> float.

(** The fixed-step integrator overwrites the state in place. *)
Hypothesis rk4_size : forall system st x t dt,
  length (snd (rk4_do_step system st x t dt)) = length x.

(** [std::pow] returns a NaN only for a NaN or a negative base. *)
Hypothesis pow_not_nan : forall x,
  (0 <=? x) = true -> (pow x 0.2 =? pow x 0.2) = true.

Local Abbreviation session := (binary64.stepper_adaptive_rk4 stepper_rk4).
Local Abbreviation do_step := (binary64.do_step rk4_do_step pow).
Local Abbreviation run := (binary64.run rk4_do_step pow).
Local Abbreviation floored_error := (binary64.floored_error rk4_do_step).
Local Abbreviation clamp_factor := (binary64.clamp_factor pow).
Local Abbreviation next_time_delta := (binary64.next_time_delta pow).
Local Abbreviation _time_delta := binary64._time_delta.
Local Abbreviation _tollerance := binary64._tollerance.
Local Abbreviation current_time_step := binary64.current_time_step.

Lemma abs_error_loop_nonneg (state : binary64.State) :
  forall (y0 : binary64.State) (acc : float),
  nonneg acc -> (length state <= length y0)%nat ->
  exists r, binary64.abs_error_loop state y0 acc = Some r /\ nonneg r.
Proof.
  induction state as [|si state IH]; intros y0 acc Hacc Hlen.
  - exists acc. split; [reflexivity | exact Hacc].
  - destruct y0 as [|yi y0]; cbn [length] in Hlen; [lia|].
    cbn [binary64.abs_error_loop].
    apply IH; [|lia].
    destruct (acc <? abs (si - yi)) eqn:L; [|exact Hacc].
    exact (ltb_nonneg _ _ Hacc L).
Qed.

Lemma floor_error_nonneg (t : float) :
  nonneg t -> nonneg (binary64.floor_error t).
Proof.
  intros H. unfold binary64.floor_error.
  destruct (t =? 0); [|exact H].
  unfold nonneg. vm_compute. exact I.
Qed.

Lemma floored_error_nonneg (system : System) (s : session) :
  exists e, floored_error system s = Some e /\ nonneg e.
Proof.
  unfold binary64.floored_error, binary64.truncation_error, binary64.flag.
  edestruct abs_error_loop_nonneg as (r & -> & Hr);
    [| | exists (binary64.floor_error r); split;
         [reflexivity | apply floor_error_nonneg, Hr]].
  - unfold nonneg. vm_compute. exact I.
  - rewrite !rk4_size. lia.
Qed.

Lemma do_step_floored (system : System) (s : session) (e : float) :
  floored_error system s = Some e ->
  exists s', do_step system s = Some s' /\
    _time_delta s' = next_time_delta (_tollerance s) (_time_delta s) e /\
    _tollerance s' = _tollerance s.
Proof.
  unfold binary64.floored_error, binary64.do_step.
  destruct (rk4_do_step system (binary64._stepper1 s) (binary64._state s)
              (binary64._time s) (_time_delta s)) as [st1 y0].
  destruct (rk4_do_step system (binary64._stepper2 s) (binary64._state s)
              (binary64._time s) (_time_delta s * 0.5)) as [st2 x1].
  cbn [fst snd].
  destruct (rk4_do_step system st2 x1
              (binary64._time s + _time_delta s * 0.5) (_time_delta s * 0.5))
    as [st2' x].
  cbn [fst snd].
  destruct (binary64.truncation_error x y0) as [t|]; cbn [obind];
    [|discriminate].
  intros [= <-]. eexists. split; [reflexivity|]. split; reflexivity.
Qed.

Lemma clamp_factor_between (tol e : float) :
  finite_positive tol -> nonneg e ->
  finite_positive (clamp_factor tol e) /\
  (0.3 <=? clamp_factor tol e) = true /\
  (clamp_factor tol e <=? 1.5) = true.
Proof.
  intros Htol He. unfold binary64.clamp_factor.
  apply clamp_between, pow_not_nan, nonneg_leb, div_nonneg; [exact Htol|].
  apply mul_nonneg_l; [|exact He].
  eexists _, _. vm_compute. reflexivity.
Qed.

Lemma next_time_delta_nonneg (tol dt e : float) :
  finite_positive tol -> nonneg e -> nonneg dt ->
  nonneg (next_time_delta tol dt e).
Proof.
  intros Htol He Hdt. unfold binary64.next_time_delta.
  apply mul_nonneg_r; [|apply (clamp_factor_between tol e Htol He)].
  apply mul_nonneg_l; [|exact Hdt].
  eexists _, _. vm_compute. reflexivity.
Qed.

Lemma run_nonneg (system : System) (k : nat) :
  forall s : session,
  finite_positive (_tollerance s) -> nonneg (_time_delta s) ->
  exists s', run system k s = Some s' /\ nonneg (_time_delta s').
Proof.
  induction k as [|k IH]; intros s Htol Hdt.
  - exists s. split; [reflexivity | exact Hdt].
  - destruct (floored_error_nonneg system s) as (e & He & Ne).
    destruct (do_step_floored system s e He) as (s1 & H1 & D1 & T1).
    destruct (IH s1) as (s' & Hrun & Hn).
    + rewrite T1. exact Htol.
    + rewrite D1. apply next_time_delta_nonneg; assumption.
    + exists s'. cbn [binary64.run]. rewrite H1. cbn [obind].
      split; [exact Hrun | exact Hn].
Qed.

(** C5 (as amended): with a positive finite tolerance, every call of the
    step operation stores the binary64 product [0.9 * dt * c], rounded
    after each multiplication, where [c] is the power
    [(tol / (2 * e)) ^ 0.2] of the floored error [e] clamped between 0.3
    and 1.5: [0.3 <= c <= 1.5]. *)
Theorem step_size_is_clamped_product (system : System) (s : session) :
  (0 <? _tollerance s) = true -> (_tollerance s <? infinity) = true ->
  exists s' e, do_step system s = Some s' /\
    floored_error system s = Some e /\
    current_time_step s'
    = 0.9 * current_time_step s * clamp_factor (_tollerance s) e /\
    (0.3 <=? clamp_factor (_tollerance s) e) = true /\
    (clamp_factor (_tollerance s) e <=? 1.5) = true.
Proof.
  intros P F.
  destruct (floored_error_nonneg system s) as (e & He & Ne).
  destruct (do_step_floored system s e He) as (s' & H & D & _).
  exists s', e. split; [exact H|]. split; [exact He|].
  split; [exact D|].
  apply (clamp_factor_between _ e (positive_finite _ P F) Ne).
Qed.

(** C6 (as amended): a controller constructed with a positive finite
    tolerance and initialised with a strictly positive step size
    reports, after any number of calls of the step operation, a step
    size that is not negative and not a NaN: it is at least zero. *)
Theorem step_size_never_negative (init : stepper_rk4) (system : System)
    (tol : float) (x0 : binary64.State) (t0 dt0 : float) (k : nat) :
  (0 <? tol) = true -> (tol <? infinity) = true -> (0 <? dt0) = true ->
  exists s',
    run system k (binary64.initialize (binary64.construct init tol) x0 t0 dt0)
    = Some s' /\
    (0 <=? current_time_step s') = true.
Proof.
  intros P F D.
  destruct (run_nonneg system k
              (binary64.initialize (binary64.construct init tol) x0 t0 dt0))
    as (s' & Hrun & Hn).
  - exact (positive_finite _ P F).
  - exact (positive_nonneg _ D).
  - exists s'. split; [exact Hrun | apply nonneg_leb, Hn].
Qed.

End controller.

(** ** Concrete runs on the trivial system *)

Lemma rest_step_size (system st : unit) (x : binary64.State) (t dt : float) :
  length (snd (binary64.rest_step system st x t dt)) = length x.
Proof. reflexivity. Qed.

Lemma pow_never_nan_not_nan (x : float) :
  (0 <=? x) = true ->
  (binary64.pow_never_nan x 0.2 =? binary64.pow_never_nan x 0.2) = true.
Proof.
  intros _. unfold binary64.pow_never_nan.
  destruct (binary64.pow_by_square_roots x 0.2
            =? binary64.pow_by_square_roots x 0.2) eqn:E;
    [exact E | reflexivity].
Qed.

(** The tolerance [1e-4], the state [[1; 2]] at rest and the step size 3:
    the stored step size is [4.0500000000000007], more than [1.35 * 3];
    with the tolerance [1e-300] and the step size 7 it is less than
    [0.27 * 7]. *)
Lemma step_size_ratio_leaves_interval :
  exists s1 q1 s2 q2,
    binary64.do_step binary64.rest_step binary64.pow_by_square_roots tt
      (binary64.session 1e-4 [1; 2] 0 3) = Some s1 /\
    binary64.exact (binary64.current_time_step s1) = Some q1 /\
    QArith_base.Qlt
      (QArith_base.Qmult (QArith_base.Qmake 135 100) (QArith_base.Qmake 3 1)) q1 /\
    (1.35 <? binary64.current_time_step s1 / 3) = true /\
    binary64.do_step binary64.rest_step binary64.pow_by_square_roots tt
      (binary64.session 1e-300 [1; 2] 0 7) = Some s2 /\
    binary64.exact (binary64.current_time_step s2) = Some q2 /\
    QArith_base.Qlt
      q2 (QArith_base.Qmult (QArith_base.Qmake 27 100) (QArith_base.Qmake 7 1)) /\
    (binary64.current_time_step s2 / 7 <? 0.27) = true.
Proof.
  eexists _, _, _, _.
  split; [vm_compute; reflexivity|].
  split; [vm_compute; reflexivity|].
  split; [vm_compute; reflexivity|].
  split; [vm_compute; reflexivity|].
  split; [vm_compute; reflexivity|].
  split; [vm_compute; reflexivity|].
  split; vm_compute; reflexivity.
Qed.

(** The tolerance [1e-300], the state [[1; 2]] at rest and the initial
    step size [1e-3]: every call shrinks the step size by the smallest
    factor, and after 564 calls the product underflows: the step size is
    exactly zero. *)
Lemma step_size_underflows_to_zero :
  (0 <? 1e-300) = true /\ (0 <? 1e-3) = true /\
  exists s',
    binary64.run binary64.rest_step binary64.pow_by_square_roots tt 564
      (binary64.session 1e-300 [1; 2] 0 1e-3) = Some s' /\
    binary64.current_time_step s' = 0 /\
    (0 <? binary64.current_time_step s') = false.
Proof.
  split; [reflexivity|]. split; [reflexivity|].
  eexists. split; [vm_compute; reflexivity|].
  split; reflexivity.
Qed.

Lemma step_size_is_clamped_product_witness :
  (forall system st x t dt,
     length (snd (binary64.rest_step system st x t dt)) = length x) /\
  (forall x, (0 <=? x) = true ->
     (binary64.pow_never_nan x 0.2 =? binary64.pow_never_nan x 0.2) = true) /\
  (0 <? 1e-4) = true /\ (1e-4 <? infinity) = true /\
  exists s' e,
    binary64.do_step binary64.rest_step binary64.pow_never_nan tt
      (binary64.session 1e-4 [1; 2] 0 3) = Some s' /\
    binary64.current_time_step s'
    = 0.9 * 3 * binary64.clamp_factor binary64.pow_never_nan 1e-4 e /\
    (0.3 <=? binary64.clamp_factor binary64.pow_never_nan 1e-4 e) = true /\
    (binary64.clamp_factor binary64.pow_never_nan 1e-4 e <=? 1.5) = true.
Proof.
  split; [exact rest_step_size|]. split; [exact pow_never_nan_not_nan|].
  split; [reflexivity|]. split; [reflexivity|].
  destruct (step_size_is_clamped_product unit unit binary64.rest_step
              binary64.pow_never_nan rest_step_size pow_never_nan_not_nan
              tt (binary64.session 1e-4 [1; 2] 0 3) eq_refl eq_refl)
    as (s' & e & H & _ & D & B).
  exists s', e. split; [exact H|]. split; [exact D | exact B].
Defined.

Lemma step_size_never_negative_witness :
  (forall system st x t dt,
     length (snd (binary64.rest_step system st x t dt)) = length x) /\
  (forall x, (0 <=? x) = true ->
     (binary64.pow_never_nan x 0.2 =? binary64.pow_never_nan x 0.2) = true) /\
  (0 <? 1e-300) = true /\ (1e-300 <? infinity) = true /\ (0 <? 1e-3) = true /\
  exists s',
    binary64.run binary64.rest_step binary64.pow_never_nan tt 564
      (binary64.session 1e-300 [1; 2] 0 1e-3) = Some s' /\
    (0 <=? binary64.current_time_step s') = true.
Proof.
  split; [exact rest_step_size|]. split; [exact pow_never_nan_not_nan|].
  split; [reflexivity|]. split; [reflexivity|]. split; [reflexivity|].
  exact (step_size_never_negative unit unit binary64.rest_step
           binary64.pow_never_nan rest_step_size pow_never_nan_not_nan
           tt tt 1e-300 [1; 2] 0 1e-3 564 eq_refl eq_refl eq_refl).
Defined.

End binary64_facts.
